(** * QuizAppp: the quiz generator of [quizapp.py]

    A shallow embedding of the script's two functions, [fetch_questions] and
    [main], together with the part of the Python run time they lean on
    (decoded JSON values, [json.loads], dictionary and string operations,
    binary64 arithmetic), and the properties of the quiz session that follow
    from the code: what [fetch_questions] makes of a response, the invariants
    of the session state, generation, submission, scoring, feedback and
    reset; then what the cache does over the runs of a session, what a run
    can change, the responses and questions on which a session raises, and
    the models with which it never does.

    Python strings are held as Rocq strings in UTF-8.  A run of the script
    is a program in a monad of state, page and exceptions; the runs of a
    session are reasoned about with a small Hoare logic over it. *)

From Stdlib Require Import ZArith String Ascii List Bool Floats.
From Stdlib Require Import DecimalString DecimalPos DecimalZ.
From stdpp Require Import base option list gmap strings.

Local Open Scope string_scope.
Local Open Scope list_scope.
Local Open Scope Z_scope.

(** ** Python values and exceptions *)

(** What [json.loads] can return.  A float keeps the text it was read from
    (its value is a function of that text, and the script never computes with
    one).  An object is a [dict]: its keys are unique and kept in the order
    of their first insertion. *)
#[local] Unset Elimination Schemes.
Inductive json :=
| JNull
| JBool (b : bool)
| JInt (n : Z)
| JFloat (lexeme : string)
| JStr (s : string)
| JArr (items : list json)
| JObj (members : list (string * json)).
#[local] Set Elimination Schemes.

(** The exceptions the script can meet.  [ExternalError] stands for whatever
    the generation call or the access to [response.text] raises. *)
Inductive exn :=
| JSONDecodeError
| AttributeError
| KeyError
| TypeError
| ZeroDivisionError
| RecursionError
| ExternalError.

Inductive res (A : Type) :=
| Ok (a : A)
| Raise (e : exn).
Arguments Ok {A} a.
Arguments Raise {A} e.

Definition res_bind {A B} (r : res A) (k : A -> res B) : res B :=
  match r with
  | Ok a => k a
  | Raise e => Raise e
  end.

(** ** Characters and strings *)

Definition chr (n : N) : ascii := ascii_of_N n.
Definition ord (c : ascii) : N := N_of_ascii c.

Definition is_char (n : N) (c : ascii) : bool := N.eqb (ord c) n.

(** The double quote, written by its code. *)
Definition dquote : ascii := chr 34.

Definition str1 (c : ascii) : string := String c EmptyString.

(** [s.startswith(p)], with what follows the prefix. *)
Fixpoint strip_prefix (p s : string) : option string :=
  match p with
  | EmptyString => Some s
  | String a p' =>
      match s with
      | EmptyString => None
      | String b s' => if Ascii.eqb a b then strip_prefix p' s' else None
      end
  end.

(** [str(n)] for an [int]. *)
Definition str_int (n : Z) : string := NilZero.string_of_int (Z.to_int n).

(** The first field of [s.split(sep)] for a one-character separator:
    [s.split(":")[0]]. *)
Fixpoint split_head (sep : ascii) (s : string) : string :=
  match s with
  | EmptyString => EmptyString
  | String c rest =>
      if Ascii.eqb c sep then EmptyString else String c (split_head sep rest)
  end.

(** The code points of a UTF-8 string, each as the string of its bytes: what
    iterating over a [str] yields.  A byte [10xxxxxx] continues the code
    point before it. *)
Definition is_continuation (c : ascii) : bool :=
  N.eqb (N.shiftr (ord c) 6) 2.

Fixpoint code_points_from (cur : string) (s : string) : list string :=
  match s with
  | EmptyString => [cur]
  | String c rest =>
      if is_continuation c then code_points_from (cur +:+ str1 c) rest
      else cur :: code_points_from (str1 c) rest
  end.

Definition code_points (s : string) : list string :=
  match s with
  | EmptyString => []
  | String c rest => code_points_from (str1 c) rest
  end.

(** UTF-8 of one code point (a lone surrogate is written on three bytes). *)
Definition utf8 (cp : N) : string :=
  let cont (k : N) := chr (N.lor 128 (N.land (N.shiftr cp k) 63)) in
  if N.ltb cp 128 then str1 (chr cp)
  else if N.ltb cp 2048 then
    String (chr (N.lor 192 (N.shiftr cp 6))) (str1 (cont 0%N))
  else if N.ltb cp 65536 then
    String (chr (N.lor 224 (N.shiftr cp 12))) (String (cont 6%N) (str1 (cont 0%N)))
  else
    String (chr (N.lor 240 (N.shiftr cp 18)))
      (String (cont 12%N) (String (cont 6%N) (str1 (cont 0%N)))).

(** ** Dictionaries *)

(** A [dict] with string keys, in insertion order. *)
Fixpoint dict_get {V} (d : list (string * V)) (k : string) : option V :=
  match d with
  | [] => None
  | (k', v) :: d' => if String.eqb k' k then Some v else dict_get d' k
  end.

(** [d[k] = v]: a key already there keeps its place. *)
Fixpoint dict_set {V} (k : string) (v : V) (d : list (string * V)) : list (string * V) :=
  match d with
  | [] => [(k, v)]
  | (k', v') :: d' =>
      if String.eqb k' k then (k', v) :: d' else (k', v') :: dict_set k v d'
  end.

(** ** [json.loads]

    The decoder of the [json] module as CPython runs it (the scanner of
    [_json.c]): one value, white space allowed around it, nothing after it.
    A parser gets the text that is left to read and gives back the text after
    what it read.  Two limits of the interpreter are left out: the depth of
    the nesting it accepts before [RecursionError], and the number of digits
    of an integer it converts (4300 from Python 3.11 on). *)

Inductive parse (A : Type) :=
| Parsed (a : A) (rest : string)
| Invalid
| NoFuel.
Arguments Parsed {A} a rest.
Arguments Invalid {A}.
Arguments NoFuel {A}.

Definition is_whitespace (c : ascii) : bool :=
  is_char 32 c || is_char 9 c || is_char 10 c || is_char 13 c.

Fixpoint skip_whitespace (s : string) : string :=
  match s with
  | EmptyString => EmptyString
  | String c rest => if is_whitespace c then skip_whitespace rest else s
  end.

Definition is_digit (c : ascii) : bool :=
  N.leb 48 (ord c) && N.leb (ord c) 57.

Definition hex_value (c : ascii) : option N :=
  let n := ord c in
  if N.leb 48 n && N.leb n 57 then Some (n - 48)%N
  else if N.leb 97 n && N.leb n 102 then Some (n - 87)%N
  else if N.leb 65 n && N.leb n 70 then Some (n - 55)%N
  else None.

(** The four hexadecimal digits of a [\uXXXX] escape. *)
Definition hex4 (s : string) : option N :=
  match s with
  | String a (String b (String c (String d _))) =>
      match hex_value a, hex_value b, hex_value c, hex_value d with
      | Some x, Some y, Some z, Some w => Some (((x * 16 + y) * 16 + z) * 16 + w)%N
      | _, _, _, _ => None
      end
  | _ => None
  end.

Definition is_high_surrogate (u : N) : bool := N.leb 55296 u && N.leb u 56319.
Definition is_low_surrogate (u : N) : bool := N.leb 56320 u && N.leb u 57343.

(** What a backslash escape stands for, from the text after the backslash:
    the decoded characters and how many characters of the text the escape
    takes.  A high surrogate followed by a [\u] escape of a low surrogate is
    joined with it. *)
Definition decode_escape (s : string) : option (string * nat) :=
  match s with
  | EmptyString => None
  | String e rest =>
      if is_char 34 e then Some (str1 dquote, 1%nat)
      else if is_char 92 e then Some (str1 (chr 92), 1%nat)
      else if is_char 47 e then Some ("/", 1%nat)
      else if is_char 98 e then Some (str1 (chr 8), 1%nat)
      else if is_char 102 e then Some (str1 (chr 12), 1%nat)
      else if is_char 110 e then Some (str1 (chr 10), 1%nat)
      else if is_char 114 e then Some (str1 (chr 13), 1%nat)
      else if is_char 116 e then Some (str1 (chr 9), 1%nat)
      else if is_char 117 e then
        match hex4 rest with
        | None => None
        | Some uni =>
            if is_high_surrogate uni then
              match rest with
              | String _ (String _ (String _ (String _ (String b (String u rest2))))) =>
                  if is_char 92 b && is_char 117 u then
                    match hex4 rest2 with
                    | None => None
                    | Some uni2 =>
                        if is_low_surrogate uni2 then
                          Some (utf8 (65536 + N.lor (N.shiftl (uni - 55296) 10) (uni2 - 56320)),
                                11%nat)
                        else Some (utf8 uni, 5%nat)
                    end
                  else Some (utf8 uni, 5%nat)
              | _ => Some (utf8 uni, 5%nat)
              end
            else Some (utf8 uni, 5%nat)
        end
      else None
  end.

(** [scanstring], after the opening quote: up to the closing quote, escapes
    decoded, control characters refused.  [skip] counts the characters of an
    escape already decoded that are still to be passed over. *)
Fixpoint scanstring (skip : nat) (acc : string) (s : string) : parse string :=
  match s with
  | EmptyString => Invalid
  | String c rest =>
      match skip with
      | S k => scanstring k acc rest
      | O =>
          if is_char 34 c then Parsed acc rest
          else if is_char 92 c then
            match decode_escape rest with
            | Some (chars, used) => scanstring used (acc +:+ chars) rest
            | None => Invalid
            end
          else if N.ltb (ord c) 32 then Invalid
          else scanstring 0 (acc +:+ str1 c) rest
      end
  end.

(** The longest run of digits at the head of the text, and what follows. *)
Fixpoint span_digits (s : string) : string * string :=
  match s with
  | EmptyString => (EmptyString, EmptyString)
  | String c rest =>
      if is_digit c then
        let '(ds, r) := span_digits rest in (String c ds, r)
      else (EmptyString, s)
  end.

Fixpoint digits_value (acc : Z) (ds : string) : Z :=
  match ds with
  | EmptyString => acc
  | String c rest => digits_value (acc * 10 + Z.of_N (ord c - 48)) rest
  end.

(** The integer part of a number: an optional minus sign, then either a
    single [0] or a digit from 1 to 9 followed by any digits. *)
Definition match_digits (s : string) : option (string * string) :=
  match s with
  | String c rest =>
      if is_char 48 c then Some (str1 c, rest)
      else if is_digit c then
        let '(ds, r) := span_digits rest in Some (String c ds, r)
      else None
  | EmptyString => None
  end.

Definition match_integer (s : string) : option (bool * string * string) :=
  match s with
  | String c rest =>
      if is_char 45 c then (fun '(ds, r) => (true, ds, r)) <$> match_digits rest
      else (fun '(ds, r) => (false, ds, r)) <$> match_digits s
  | EmptyString => None
  end.

(** The fraction: a point and digits, read only when a digit follows the
    point. *)
Definition match_fraction (s : string) : string * string :=
  match s with
  | String p (String d rest as r0) =>
      if is_char 46 p && is_digit d then
        let '(ds, r) := span_digits r0 in (String p ds, r)
      else (EmptyString, s)
  | _ => (EmptyString, s)
  end.

(** The exponent: [e] or [E], an optional sign and digits, read only when it
    has a digit. *)
Definition match_exponent (s : string) : string * string :=
  match s with
  | String e rest =>
      if is_char 101 e || is_char 69 e then
        let '(sign, r1) :=
          match rest with
          | String g r => if is_char 45 g || is_char 43 g then (str1 g, r) else (EmptyString, rest)
          | EmptyString => (EmptyString, rest)
          end in
        match span_digits r1 with
        | (EmptyString, _) => (EmptyString, s)
        | (ds, r) => (String e (sign +:+ ds), r)
        end
      else (EmptyString, s)
  | EmptyString => (EmptyString, s)
  end.

(** A number: an [int] when it has neither fraction nor exponent, a [float]
    otherwise. *)
Definition match_number (s : string) : parse json :=
  match match_integer s with
  | None => Invalid
  | Some (neg, ds, r) =>
      let '(frac, r1) := match_fraction r in
      let '(expo, r2) := match_exponent r1 in
      match frac, expo with
      | EmptyString, EmptyString =>
          Parsed (JInt (if neg then - digits_value 0 ds else digits_value 0 ds)) r2
      | _, _ => Parsed (JFloat ((if neg then "-" else "") +:+ ds +:+ frac +:+ expo)) r2
      end
  end.

(** A constant spelled [name] at the head of the text. *)
Definition match_constant (name : string) (v : json) (s : string) : option (parse json) :=
  match strip_prefix name s with
  | Some rest => Some (Parsed v rest)
  | None => None
  end.

(** [scan_once] with the two loops of [_parse_array] and [_parse_object].
    [fuel] bounds the calls; [json_loads] gives enough of it. *)
Fixpoint scan_once (fuel : nat) (s : string) {struct fuel} : parse json :=
  match fuel with
  | O => NoFuel
  | S fuel =>
      match s with
      | EmptyString => Invalid
      | String c rest =>
          if is_char 34 c then
            match scanstring 0 EmptyString rest with
            | Parsed str r => Parsed (JStr str) r
            | Invalid => Invalid
            | NoFuel => NoFuel
            end
          else if is_char 123 c then
            match skip_whitespace rest with
            | String c1 r1 as r0 =>
                if is_char 125 c1 then Parsed (JObj []) r1 else parse_object fuel [] r0
            | EmptyString => Invalid
            end
          else if is_char 91 c then
            match skip_whitespace rest with
            | String c1 r1 as r0 =>
                if is_char 93 c1 then Parsed (JArr []) r1 else parse_array fuel [] r0
            | EmptyString => Invalid
            end
          else
            match
              (if is_char 110 c then match_constant "null" JNull s
               else if is_char 116 c then match_constant "true" (JBool true) s
               else if is_char 102 c then match_constant "false" (JBool false) s
               else if is_char 78 c then match_constant "NaN" (JFloat "NaN") s
               else if is_char 73 c then match_constant "Infinity" (JFloat "Infinity") s
               else if is_char 45 c then match_constant "-Infinity" (JFloat "-Infinity") s
               else None)
            with
            | Some r => r
            | None => match_number s
            end
      end
  end

with parse_array (fuel : nat) (values : list json) (s : string) {struct fuel} : parse json :=
  match fuel with
  | O => NoFuel
  | S fuel =>
      match scan_once fuel s with
      | Parsed v r =>
          match skip_whitespace r with
          | String c r1 =>
              if is_char 93 c then Parsed (JArr (values ++ [v])) r1
              else if is_char 44 c then parse_array fuel (values ++ [v]) (skip_whitespace r1)
              else Invalid
          | EmptyString => Invalid
          end
      | Invalid => Invalid
      | NoFuel => NoFuel
      end
  end

with parse_object (fuel : nat) (pairs : list (string * json)) (s : string) {struct fuel} : parse json :=
  match fuel with
  | O => NoFuel
  | S fuel =>
      match s with
      | EmptyString => Invalid
      | String q r0 =>
          if negb (is_char 34 q) then Invalid
          else
            match scanstring 0 EmptyString r0 with
            | Parsed key r =>
                match skip_whitespace r with
                | String c r1 =>
                    if negb (is_char 58 c) then Invalid
                    else
                      match scan_once fuel (skip_whitespace r1) with
                      | Parsed v r2 =>
                          match skip_whitespace r2 with
                          | String c2 r3 =>
                              if is_char 125 c2 then Parsed (JObj (dict_set key v pairs)) r3
                              else if is_char 44 c2 then
                                parse_object fuel (dict_set key v pairs) (skip_whitespace r3)
                              else Invalid
                          | EmptyString => Invalid
                          end
                      | Invalid => Invalid
                      | NoFuel => NoFuel
                      end
                | EmptyString => Invalid
                end
            | Invalid => Invalid
            | NoFuel => NoFuel
            end
      end
  end.

(** [json.loads(s)]: [JSONDecodeError] on anything that is not one JSON
    value.  Reading a text takes at most two calls for each of its
    characters (see [scan_once_fuel]). *)
Definition json_loads (s : string) : res json :=
  match scan_once (S (2 * String.length s)) (skip_whitespace s) with
  | Parsed v rest =>
      match skip_whitespace rest with
      | EmptyString => Ok v
      | String _ _ => Raise JSONDecodeError
      end
  | Invalid => Raise JSONDecodeError
  | NoFuel => Raise RecursionError
  end.

(** Test texts are written with apostrophes where JSON has double quotes. *)
Fixpoint dq (s : string) : string :=
  match s with
  | EmptyString => EmptyString
  | String c rest => String (if is_char 39 c then dquote else c) (dq rest)
  end.


(** ** Operations of Python on decoded values *)

(** [v[k]] with a string [k]: only a [dict] can be indexed by a string. *)
Definition py_getitem (v : json) (k : string) : res json :=
  match v with
  | JObj d =>
      match dict_get d k with
      | Some x => Ok x
      | None => Raise KeyError
      end
  | _ => Raise TypeError
  end.

(** [v.get(k, default)]: only a [dict] has the method. *)
Definition py_get (v : json) (k : string) (default : json) : res json :=
  match v with
  | JObj d =>
      match dict_get d k with
      | Some x => Ok x
      | None => Ok default
      end
  | _ => Raise AttributeError
  end.

(** [v.items()]. *)
Definition py_items (v : json) : res (list (string * json)) :=
  match v with
  | JObj d => Ok d
  | _ => Raise AttributeError
  end.

(** What [for ... in enumerate(v)] goes through: the items of a list, the
    characters of a string, the keys of a dictionary. *)
Definition py_iter (v : json) : res (list json) :=
  match v with
  | JArr items => Ok items
  | JStr s => Ok (JStr <$> code_points s)
  | JObj d => Ok ((fun kv => JStr (fst kv)) <$> d)
  | _ => Raise TypeError
  end.

(** [len(v)]. *)
Definition py_len (v : json) : res Z :=
  match v with
  | JArr items => Ok (Z.of_nat (length items))
  | JStr s => Ok (Z.of_nat (length (code_points s)))
  | JObj d => Ok (Z.of_nat (length d))
  | _ => Raise TypeError
  end.

(** [selected == correct], where [selected] is a string or [None]. *)
Definition py_eq (selected : option string) (correct : json) : bool :=
  match selected, correct with
  | Some s, JStr c => String.eqb s c
  | None, JNull => true
  | _, _ => false
  end.

(** The truth value of a string or [None]. *)
Definition truthy (v : option string) : bool :=
  match v with
  | None => false
  | Some EmptyString => false
  | Some (String _ _) => true
  end.

(** ** The prompt and [fetch_questions] *)

Definition nl : string := str1 (chr 10).

(** [RESPONSE_JSON] (lines 46 to 59). *)
Definition RESPONSE_JSON : json :=
  JObj [("mcqs",
         JArr [JObj [("mcq", JStr "Sample question");
                     ("options", JObj [("a", JStr "Option 1"); ("b", JStr "Option 2");
                                       ("c", JStr "Option 3"); ("d", JStr "Option 4")]);
                     ("correct", JStr "a")]])].

(** [json.dumps(RESPONSE_JSON, indent=2)], written with apostrophes for the
    double quotes (see [dq]). *)
Definition RESPONSE_JSON_dumps : string :=
  dq ("{" +:+ nl +:+
      "  'mcqs': [" +:+ nl +:+
      "    {" +:+ nl +:+
      "      'mcq': 'Sample question'," +:+ nl +:+
      "      'options': {" +:+ nl +:+
      "        'a': 'Option 1'," +:+ nl +:+
      "        'b': 'Option 2'," +:+ nl +:+
      "        'c': 'Option 3'," +:+ nl +:+
      "        'd': 'Option 4'" +:+ nl +:+
      "      }," +:+ nl +:+
      "      'correct': 'a'" +:+ nl +:+
      "    }" +:+ nl +:+
      "  ]" +:+ nl +:+
      "}").

(** [PROMPT_TEMPLATE] (lines 61 to 69), an f-string over the three
    arguments of [fetch_questions]. *)
Definition PROMPT_TEMPLATE (text_content quiz_level : string) (num_questions : Z) : string :=
  nl +:+
  "    You are an expert in generating MCQ quizzes based on provided content." +:+ nl +:+
  "    Given the text below, generate a quiz with " +:+ str_int num_questions +:+
  " multiple-choice questions at the '" +:+ quiz_level +:+ "' difficulty level." +:+ nl +:+
  nl +:+
  "    Text: " +:+ text_content +:+ nl +:+
  nl +:+
  "    The format should strictly match this JSON:" +:+ nl +:+
  "    " +:+ RESPONSE_JSON_dumps +:+ nl +:+
  "    ".

(** [fetch_questions] (lines 45 to 77), without its cache.
    [generate_content] is the model: it gives [response.text] for a prompt,
    or raises.  Only [JSONDecodeError] is caught. *)
Definition fetch_questions (generate_content : string -> res string)
    (text_content quiz_level : string) (num_questions : Z) : res json :=
  res_bind (generate_content (PROMPT_TEMPLATE text_content quiz_level num_questions))
    (fun response_text =>
       match json_loads response_text with
       | Ok extracted_response => py_get extracted_response "mcqs" (JArr [])
       | Raise JSONDecodeError => Ok (JArr [])
       | Raise e => Raise e
       end).

(** [@st.cache_data] (line 44): a call whose arguments were seen before
    returns the value kept for them without running the body; a call that
    returns adds its value; a call that raises adds nothing. *)
Definition cache_data_fetch_questions (cache : gmap (string * string * Z) json)
    (generate_content : string -> res string)
    (text_content quiz_level : string) (num_questions : Z)
  : gmap (string * string * Z) json * res json :=
  match cache !! (text_content, quiz_level, num_questions) with
  | Some v => (cache, Ok v)
  | None =>
      match fetch_questions generate_content text_content quiz_level num_questions with
      | Ok v => (<[(text_content, quiz_level, num_questions) := v]> cache, Ok v)
      | Raise e => (cache, Raise e)
      end
  end.


(** ** Floats *)

(** [float(n)] for the [int]s the script divides: counts of questions. *)
Definition float_of_int (n : Z) : float := PrimFloat.of_uint63 (Uint63.of_Z n).

(** [a / b] on [int]s. *)
Definition true_div (a b : Z) : res float :=
  if Z.eqb b 0 then Raise ZeroDivisionError
  else Ok (PrimFloat.div (float_of_int a) (float_of_int b)).

Definition two_digits (n : Z) : string :=
  (if Z.ltb n 10 then "0" else "") +:+ str_int n.

(** [f"{x:.2f}"]: the decimal with two digits after the point nearest to the
    value of [x], halves to the even one. *)
Definition format_2f (x : float) : string :=
  match Prim2SF x with
  | S754_nan => "nan"
  | S754_infinity s => if s then "-inf" else "inf"
  | S754_zero s => if s then "-0.00" else "0.00"
  | S754_finite s m e =>
      let num := 100 * Z.pos m in
      let n :=
        if Z.leb 0 e then num * 2 ^ e
        else
          let d := 2 ^ (- e) in
          let q := num / d in
          let r := num mod d in
          if Z.ltb (2 * r) d then q
          else if Z.ltb d (2 * r) then q + 1
          else if Z.even q then q else q + 1 in
      (if s then "-" else "") +:+ str_int (n / 100) +:+ "." +:+ two_digits (n mod 100)
  end.


(** ** The session *)

(** [st.session_state]: the three attributes the script keeps there.  An
    attribute is [None] until the script sets it. *)
Record SessionState := mkSession {
  questions : option json;
  quiz_generated : option bool;
  selected_options : option (gmap nat string)
}.

(** What lives from one run of the script to the next: the session state and
    the cache of [fetch_questions]. *)
Record World := mkWorld {
  session : SessionState;
  cache : gmap (string * string * Z) json
}.

Definition new_session : SessionState :=
  {| questions := None; quiz_generated := None; selected_options := None |}.

Definition new_world : World := {| session := new_session; cache := ∅ |}.

Inductive Level := Easy | Medium | Hard.

(** The options of the select box (line 95). *)
Definition level_label (l : Level) : string :=
  match l with
  | Easy => "Easy"
  | Medium => "Medium"
  | Hard => "Hard"
  end.

Inductive Button := Generate | Submit | Reset.

(** What one run of the script reads from outside: the widgets (the text
    area, the select box, the number input, the button whose click started
    the run if any, and for the radio of each question the position of the
    chosen option if any) and the model. *)
Record Inputs := mkInputs {
  text_content : string;
  quiz_level : Level;
  num_questions : Z;
  clicked : option Button;
  radio_choice : nat -> option nat;
  generate_content : string -> res string
}.

(** What the script puts on the page. *)
Inductive element :=
| st_divider
| st_write (body : string)
| st_markdown (body : string)
| st_radio (label : string) (options : list string) (key : string) (help : string)
| st_form_submit_button (label : string)
| st_button (label : string)
| st_success (body : string)
| st_info (body : string)
| st_warning (body : string)
| st_error (body : string)
| st_subheader (body : string)
| st_progress (value : float).

(** ** The script as a program

    A run threads the world and the page, and ends by returning, by an
    exception, or by [st.rerun()]. *)

Inductive outcome (A : Type) :=
| Returns (a : A)
| Raises (e : exn)
| Reruns.
Arguments Returns {A} a.
Arguments Raises {A} e.
Arguments Reruns {A}.

Record RunState := mkRun {
  world : World;
  page : list element
}.

Definition M (A : Type) : Type := RunState -> RunState * outcome A.

#[global] Instance M_ret : MRet M := fun A a r => (r, Returns a).

#[global] Instance M_bind : MBind M := fun A B k m r =>
  match m r with
  | (r', Returns a) => k a r'
  | (r', Raises e) => (r', Raises e)
  | (r', Reruns) => (r', Reruns)
  end.

Definition lift {A} (r : res A) : M A :=
  fun st =>
    match r with
    | Ok a => (st, Returns a)
    | Raise e => (st, Raises e)
    end.

Definition st_rerun {A} : M A := fun r => (r, Reruns).

Definition emit (e : element) : M unit :=
  fun r => ({| world := world r; page := page r ++ [e] |}, Returns tt).

Definition get_session : M SessionState := fun r => (r, Returns (session (world r))).

(** Assignments to the attributes of [st.session_state]. *)
Definition with_questions (v : json) (s : SessionState) : SessionState :=
  {| questions := Some v; quiz_generated := quiz_generated s;
     selected_options := selected_options s |}.

Definition with_quiz_generated (b : bool) (s : SessionState) : SessionState :=
  {| questions := questions s; quiz_generated := Some b;
     selected_options := selected_options s |}.

Definition with_selected_options (d : gmap nat string) (s : SessionState) : SessionState :=
  {| questions := questions s; quiz_generated := quiz_generated s;
     selected_options := Some d |}.

Definition on_session (f : SessionState -> SessionState) (w : World) : World :=
  {| session := f (session w); cache := cache w |}.

Definition modify_session (f : SessionState -> SessionState) : M unit :=
  fun r => ({| world := on_session f (world r); page := page r |}, Returns tt).

Definition set_questions (v : json) : M unit := modify_session (with_questions v).
Definition set_quiz_generated (b : bool) : M unit := modify_session (with_quiz_generated b).
Definition set_selected_options (d : gmap nat string) : M unit :=
  modify_session (with_selected_options d).

(** Reading an attribute of [st.session_state] that was never set raises
    [AttributeError]. *)
Definition attribute {A} (field : SessionState -> option A) : M A :=
  fun r =>
    match field (session (world r)) with
    | Some v => (r, Returns v)
    | None => (r, Raises AttributeError)
    end.

(** [fetch_questions(...)] as [main] calls it, through the cache. *)
Definition call_fetch_questions (generate_content : string -> res string)
    (text_content quiz_level : string) (num_questions : Z) : M json :=
  fun r =>
    let '(c, v) :=
      cache_data_fetch_questions (cache (world r)) generate_content
        text_content quiz_level num_questions in
    lift v {| world := {| session := session (world r); cache := c |}; page := page r |}.

(** The four messages of the feedback, from the top tier to the low one. *)
Definition perfect_score : element := st_success "🎯 Perfect Score! You're a genius! 🚀".
Definition great_job : element := st_info "🌟 Great job! Keep up the good work! 💪".
Definition good_effort : element :=
  st_warning "📚 Good effort! Try again to improve your score! 🔄".
Definition keep_practising : element := st_error "❌ Don't worry! Practice makes perfect! 😊".

(** The feedback of lines 170 to 177. *)
Definition feedback (score_percentage : float) : element :=
  if PrimFloat.eqb score_percentage 100 then perfect_score
  else if PrimFloat.leb 80 score_percentage then great_job
  else if PrimFloat.leb 50 score_percentage then good_effort
  else keep_practising.

Section Script.

(** Two operations of Python whose results only go to the page:
    [format_value v] is the text of a decoded value in an f-string
    ([str(v)]), and [str_upper s] is [s.upper()]. *)
Variable format_value : json -> string.
Variable str_upper : string -> string.

(** The labels of a radio (line 123). *)
Definition formatted_options (options : list (string * json)) : list string :=
  (fun kv => fst kv +:+ ": " +:+ format_value (snd kv)) <$> options.

(** The body of the loop of the form (lines 122 to 135) for question [i]. *)
Definition form_question (inp : Inputs) (i : nat) (question : json) : M unit :=
  mcq ← lift (py_getitem question "mcq");
  emit (st_markdown ("### ❓ " +:+ str_int (Z.of_nat i + 1) +:+ ". " +:+ format_value mcq));;
  options ← lift (py_getitem question "options");
  items ← lift (py_items options);
  let labels := formatted_options items in
  let option_key := "question_" +:+ str_int (Z.of_nat i) in
  emit (st_radio "Select an answer:" labels option_key
          ("Select the correct answer for question " +:+ str_int (Z.of_nat i + 1)));;
  let selected_option := radio_choice inp i ≫= (fun k => labels !! k) in
  if truthy selected_option then
    match selected_option with
    | Some label =>
        d ← attribute selected_options;
        set_selected_options (<[i := split_head ":" label]> d)
    | None => mret tt
    end
  else mret tt.

(** The loop of the form (line 121). *)
Fixpoint form_loop (inp : Inputs) (i : nat) (items : list json) : M unit :=
  match items with
  | [] => mret tt
  | question :: rest => form_question inp i question;; form_loop inp (S i) rest
  end.

(** The body of the scoring loop (lines 146 to 159) for question [i]: the
    marks after it.  Only a string has the method [upper]. *)
Definition score_question (i : nat) (question : json) (marks : Z) : M Z :=
  mcq ← lift (py_getitem question "mcq");
  emit (st_markdown ("**Q" +:+ str_int (Z.of_nat i + 1) +:+ ". " +:+ format_value mcq +:+ "**"));;
  d ← attribute selected_options;
  let selected_letter := d !! i in
  correct_letter ← lift (py_getitem question "correct");
  (if truthy selected_letter then
     match selected_letter with
     | Some letter =>
         options ← lift (py_getitem question "options");
         text ← lift (py_getitem options letter);
         emit (st_write ("🟢 You selected: **" +:+ str_upper letter +:+ " - "
                         +:+ format_value text +:+ "**"))
     | None => mret tt
     end
   else emit (st_write "❌ You didn't select an answer."));;
  match correct_letter with
  | JStr letter =>
      options ← lift (py_getitem question "options");
      text ← lift (py_getitem options letter);
      emit (st_write ("✅ Correct answer: **" +:+ str_upper letter +:+ " - "
                      +:+ format_value text +:+ "**"))
  | _ => lift (Raise AttributeError)
  end;;
  mret (if py_eq selected_letter correct_letter then marks + 1 else marks).

(** The scoring loop (line 145). *)
Fixpoint score_loop (i : nat) (items : list json) (marks : Z) : M Z :=
  match items with
  | [] => mret marks
  | question :: rest =>
      marks' ← score_question i question marks;
      score_loop (S i) rest marks'
  end.

(** What a submitted form brings (lines 141 to 177). *)
Definition show_results : M unit :=
  emit (st_success "✅ Quiz Submitted Successfully!");;
  emit (st_write "### 📊 Quiz Results");;
  qs ← attribute questions;
  items ← lift (py_iter qs);
  marks ← score_loop 0 items 0;
  qs ← attribute questions;
  total ← lift (py_len qs);
  ratio ← lift (true_div marks total);
  let score_percentage := PrimFloat.mul ratio 100 in
  emit (st_markdown ("### 🎉 You scored **" +:+ str_int marks +:+ " / " +:+ str_int total
                     +:+ "** (" +:+ format_2f score_percentage +:+ "%)"));;
  emit (st_progress (PrimFloat.div score_percentage 100));;
  emit (st_subheader "📢 Performance Feedback");;
  emit (feedback score_percentage).

(** [main] (lines 79 to 183), from the session state on. *)
Definition main (inp : Inputs) : M unit :=
  s ← get_session;
  (if quiz_generated s is None then set_quiz_generated false else mret tt);;
  s ← get_session;
  (if selected_options s is None then set_selected_options ∅ else mret tt);;
  emit (st_button "🚀 Generate Quiz");;
  (if clicked inp is Some Generate then
     qs ← call_fetch_questions (generate_content inp) (text_content inp)
             (level_label (quiz_level inp)) (num_questions inp);
     set_questions qs;;
     set_quiz_generated true;;
     set_selected_options ∅;;
     st_rerun
   else mret tt);;
  generated ← attribute quiz_generated;
  if (generated : bool) then
    emit st_divider;;
    emit (st_write "## 🎯 Your Quiz");;
    qs ← attribute questions;
    items ← lift (py_iter qs);
    form_loop inp 0 items;;
    emit (st_form_submit_button "✅ Submit Answers");;
    (if clicked inp is Some Submit then show_results else mret tt);;
    emit (st_button "🔄 Reset Quiz");;
    (if clicked inp is Some Reset then
       set_quiz_generated false;;
       set_selected_options ∅;;
       st_rerun
     else mret tt)
  else mret tt.

(** One run of the script: the world it leaves, the page it drew and how it
    ended. *)
Definition run (inp : Inputs) (w : World) : World * list element * outcome unit :=
  let '(r, o) := main inp {| world := w; page := [] |} in
  (world r, page r, o).

Definition step (inp : Inputs) (w : World) : World := (run inp w).1.1.

End Script.

(** ** Instances for worked examples

    [upper_ascii] is [str.upper] on ASCII text; [str_plain] is [str] on
    strings, [None], booleans and integers (a float shows the text it was
    read from, a container a placeholder). *)

Fixpoint upper_ascii (s : string) : string :=
  match s with
  | EmptyString => EmptyString
  | String c rest =>
      String (if N.leb 97 (ord c) && N.leb (ord c) 122 then chr (ord c - 32) else c)
             (upper_ascii rest)
  end.

Definition str_plain (v : json) : string :=
  match v with
  | JNull => "None"
  | JBool true => "True"
  | JBool false => "False"
  | JInt n => str_int n
  | JFloat lexeme => lexeme
  | JStr s => s
  | JArr _ => "[...]"
  | JObj _ => "{...}"
  end.

Definition run_plain := run str_plain upper_ascii.
Definition step_plain := step str_plain upper_ascii.

Definition quiet : Inputs :=
  {| text_content := "some text"; quiz_level := Easy; num_questions := 2;
     clicked := None; radio_choice := fun _ => None;
     generate_content := fun _ => Raise ExternalError |}.

Definition click (b : Button) (inp : Inputs) : Inputs :=
  {| text_content := text_content inp; quiz_level := quiz_level inp;
     num_questions := num_questions inp; clicked := Some b;
     radio_choice := radio_choice inp; generate_content := generate_content inp |}.

Definition choose (f : nat -> option nat) (inp : Inputs) : Inputs :=
  {| text_content := text_content inp; quiz_level := quiz_level inp;
     num_questions := num_questions inp; clicked := clicked inp;
     radio_choice := f; generate_content := generate_content inp |}.

Definition answering (text : string) (inp : Inputs) : Inputs :=
  {| text_content := text_content inp; quiz_level := quiz_level inp;
     num_questions := num_questions inp; clicked := clicked inp;
     radio_choice := radio_choice inp; generate_content := fun _ => Ok text |}.

Definition two_questions : string :=
  dq "{'mcqs': [{'mcq': 'One?', 'options': {'a': 'x', 'b': 'y'}, 'correct': 'b'}, {'mcq': 'Two?', 'options': {'a': 'u', 'b': 'v'}, 'correct': 'a'}]}".


(** * Properties *)

(** ** The decoder never runs out of fuel *)

(** A parser that succeeded has read at least one character, and it did not
    stop for lack of fuel. *)
Definition progress {A} (p : parse A) (s : string) : Prop :=
  match p with
  | Parsed _ r => (String.length r < String.length s)%nat
  | Invalid => True
  | NoFuel => False
  end.

Lemma skip_whitespace_length s :
  (String.length (skip_whitespace s) <= String.length s)%nat.
Proof.
  induction s as [|c s IH]; simpl; [lia|].
  destruct (is_whitespace c); simpl; lia.
Qed.

Lemma scanstring_progress s : forall skip acc,
  match scanstring skip acc s with
  | Parsed _ r => (String.length r + skip < String.length s)%nat
  | Invalid => True
  | NoFuel => False
  end.
Proof.
  induction s as [|c s IH]; intros skip acc; simpl; [done|].
  destruct skip as [|k].
  - destruct (is_char 34 c); [lia|].
    destruct (is_char 92 c).
    + destruct (decode_escape s) as [[chars used]|]; [|done].
      specialize (IH used (acc +:+ chars)).
      destruct (scanstring used (acc +:+ chars) s); try done. lia.
    + destruct (N.ltb (ord c) 32); [done|].
      specialize (IH 0%nat (acc +:+ str1 c)).
      destruct (scanstring 0 (acc +:+ str1 c) s); try done. lia.
  - specialize (IH k acc). destruct (scanstring k acc s); try done. lia.
Qed.

Lemma span_digits_length s :
  (String.length (span_digits s).2 <= String.length s)%nat.
Proof.
  induction s as [|c s IH]; simpl; [lia|].
  destruct (is_digit c); simpl; [|lia].
  destruct (span_digits s) as [ds r]; simpl in *. lia.
Qed.

Lemma match_digits_length s ds r :
  match_digits s = Some (ds, r) -> (String.length r < String.length s)%nat.
Proof.
  destruct s as [|c rest]; simpl; [done|].
  destruct (is_char 48 c); [intros ?; simplify_eq; lia|].
  destruct (is_digit c); [|done].
  pose proof (span_digits_length rest) as Hl.
  destruct (span_digits rest) as [ds' r']; simpl in *.
  intros ?; simplify_eq. lia.
Qed.

Lemma match_integer_length s neg ds r :
  match_integer s = Some (neg, ds, r) -> (String.length r < String.length s)%nat.
Proof.
  destruct s as [|c rest]; [done|]. unfold match_integer.
  destruct (is_char 45 c).
  - destruct (match_digits rest) as [[ds' r']|] eqn:Hd; [|done].
    apply match_digits_length in Hd. simpl. intros ?; simplify_eq. lia.
  - destruct (match_digits (String c rest)) as [[ds' r']|] eqn:Hd; [|done].
    apply match_digits_length in Hd. simpl. intros ?; simplify_eq. done.
Qed.

Lemma match_fraction_length s :
  (String.length (match_fraction s).2 <= String.length s)%nat.
Proof.
  unfold match_fraction.
  destruct s as [|p [|d rest]]; [simpl; lia..|].
  destruct (is_char 46 p && is_digit d); [|simpl; lia].
  pose proof (span_digits_length (String d rest)) as Hl.
  destruct (span_digits (String d rest)) as [ds r].
  cbn [snd String.length] in *. lia.
Qed.

Lemma match_exponent_length s :
  (String.length (match_exponent s).2 <= String.length s)%nat.
Proof.
  destruct s as [|e rest]; simpl; [lia|].
  destruct (is_char 101 e || is_char 69 e); simpl; [|lia].
  assert (Hsign : forall sign r1, (String.length r1 <= String.length rest)%nat ->
    (String.length (match span_digits r1 with
                    | (EmptyString, _) => (EmptyString, String e rest)
                    | (ds, r) => (String e (sign +:+ ds), r)
                    end).2 <= S (String.length rest))%nat).
  { intros sign r1 Hr1. pose proof (span_digits_length r1) as Hl.
    destruct (span_digits r1) as [[|d ds] r]; simpl in *; lia. }
  destruct rest as [|g r]; [by apply Hsign|].
  destruct (is_char 45 g || is_char 43 g); apply Hsign; simpl; lia.
Qed.

Lemma match_number_progress s : progress (match_number s) s.
Proof.
  unfold match_number.
  destruct (match_integer s) as [[[neg ds] r]|] eqn:Hint; [|done].
  apply match_integer_length in Hint.
  pose proof (match_fraction_length r) as Hf.
  destruct (match_fraction r) as [frac r1]; simpl in Hf.
  pose proof (match_exponent_length r1) as He.
  destruct (match_exponent r1) as [expo r2]; simpl in He.
  destruct frac, expo; simpl; lia.
Qed.

Lemma strip_prefix_length p s rest :
  strip_prefix p s = Some rest ->
  (String.length rest + String.length p = String.length s)%nat.
Proof.
  revert s. induction p as [|a p IH]; intros s; simpl.
  - intros [= <-]. lia.
  - destruct s as [|b s]; [done|]. destruct (Ascii.eqb a b); [|done].
    intros H%IH. simpl. lia.
Qed.

Lemma match_constant_progress name v s p :
  (0 < String.length name)%nat -> match_constant name v s = Some p -> progress p s.
Proof.
  unfold match_constant. intros Hname.
  destruct (strip_prefix name s) as [rest|] eqn:Hs; [|done].
  intros [= <-]. apply strip_prefix_length in Hs. simpl. lia.
Qed.

(** With two units of fuel for each character of the text and one more,
    [scan_once] does not stop for lack of fuel; the two loops, entered after
    a bracket was read, have one unit more. *)
Lemma scan_fuel n :
  (forall s, (2 * String.length s < n)%nat -> progress (scan_once n s) s) /\
  (forall values s, (2 * String.length s + 1 < n)%nat ->
     progress (parse_array n values s) s) /\
  (forall pairs s, (2 * String.length s + 1 < n)%nat ->
     progress (parse_object n pairs s) s).
Proof.
  induction n as [|n (IHscan & IHarr & IHobj)]; [repeat split; intros; lia|].
  repeat split.
  - intros [|c rest] Hn; simpl; [done|]. simpl in Hn.
    destruct (is_char 34 c).
    { pose proof (scanstring_progress rest 0 EmptyString) as Hs.
      destruct (scanstring 0 EmptyString rest); simpl; try done. lia. }
    destruct (is_char 123 c).
    { pose proof (skip_whitespace_length rest) as Hw.
      destruct (skip_whitespace rest) as [|c1 r1] eqn:Hr0; [done|].
      destruct (is_char 125 c1); [simpl in *; lia|].
      specialize (IHobj [] (String c1 r1)).
      destruct (parse_object n [] (String c1 r1)); simpl in *; try done; [lia|].
      apply IHobj. lia. }
    destruct (is_char 91 c).
    { pose proof (skip_whitespace_length rest) as Hw.
      destruct (skip_whitespace rest) as [|c1 r1] eqn:Hr0; [done|].
      destruct (is_char 93 c1); [simpl in *; lia|].
      specialize (IHarr [] (String c1 r1)).
      destruct (parse_array n [] (String c1 r1)); simpl in *; try done; [lia|].
      apply IHarr. lia. }
    match goal with
    | |- progress (match ?k with Some r => r | None => _ end) _ =>
        destruct k as [p|] eqn:Hk
    end; [|apply match_number_progress].
    repeat match type of Hk with
           | (if ?b then _ else _) = _ => destruct b
           end;
      try discriminate;
      (eapply match_constant_progress; [|exact Hk]; simpl; lia).
  - intros values s Hn. simpl.
    specialize (IHscan s).
    destruct (scan_once n s) as [v r| |]; simpl in *; [|done|apply IHscan; lia].
    assert (String.length r < String.length s)%nat as Hr by (apply IHscan; lia).
    pose proof (skip_whitespace_length r) as Hw.
    destruct (skip_whitespace r) as [|c r1]; [done|].
    destruct (is_char 93 c); [simpl in *; lia|].
    destruct (is_char 44 c); [|done].
    pose proof (skip_whitespace_length r1) as Hw1.
    specialize (IHarr (values ++ [v])%list (skip_whitespace r1)).
    destruct (parse_array n (values ++ [v])%list (skip_whitespace r1));
      simpl in *; try done; [specialize (IHarr ltac:(lia)); lia|].
    apply IHarr. lia.
  - intros pairs [|q r0] Hn; simpl; [done|]. simpl in Hn.
    destruct (is_char 34 q); simpl; [|done].
    pose proof (scanstring_progress r0 0 EmptyString) as Hs.
    destruct (scanstring 0 EmptyString r0) as [key r| |]; try done.
    pose proof (skip_whitespace_length r) as Hw.
    destruct (skip_whitespace r) as [|c r1]; [done|].
    destruct (is_char 58 c); simpl; [|done].
    pose proof (skip_whitespace_length r1) as Hw1.
    specialize (IHscan (skip_whitespace r1)).
    destruct (scan_once n (skip_whitespace r1)) as [v r2| |];
      simpl in *; [|done|apply IHscan; lia].
    assert (String.length r2 < String.length (skip_whitespace r1))%nat as Hr2
      by (apply IHscan; lia).
    pose proof (skip_whitespace_length r2) as Hw2.
    destruct (skip_whitespace r2) as [|c2 r3]; [done|].
    destruct (is_char 125 c2); [simpl in *; lia|].
    destruct (is_char 44 c2); [|done].
    pose proof (skip_whitespace_length r3) as Hw3.
    specialize (IHobj (dict_set key v pairs) (skip_whitespace r3)).
    destruct (parse_object n (dict_set key v pairs) (skip_whitespace r3));
      simpl in *; try done; [specialize (IHobj ltac:(lia)); lia|].
    apply IHobj. lia.
Qed.

Lemma scan_once_fuel s :
  scan_once (S (2 * String.length s)) (skip_whitespace s) <> NoFuel.
Proof.
  pose proof (skip_whitespace_length s) as Hw.
  destruct (scan_fuel (S (2 * String.length s))) as (H & _ & _).
  specialize (H (skip_whitespace s) ltac:(lia)).
  intros Heq. rewrite Heq in H. exact H.
Qed.

(** [json.loads] returns a value or raises [JSONDecodeError], nothing else. *)
Lemma json_loads_total text :
  (exists v, json_loads text = Ok v) \/ json_loads text = Raise JSONDecodeError.
Proof.
  unfold json_loads. pose proof (scan_once_fuel text) as Hfuel.
  destruct (scan_once _ _) as [v rest| |]; [|by right|done].
  destruct (skip_whitespace rest); [left; by eexists|by right].
Qed.

(** *** More fuel changes nothing *)

Lemma scan_stable n :
  (forall s m, (n <= m)%nat -> scan_once n s <> NoFuel -> scan_once m s = scan_once n s) /\
  (forall values s m, (n <= m)%nat -> parse_array n values s <> NoFuel ->
     parse_array m values s = parse_array n values s) /\
  (forall pairs s m, (n <= m)%nat -> parse_object n pairs s <> NoFuel ->
     parse_object m pairs s = parse_object n pairs s).
Proof.
  induction n as [|n (IHscan & IHarr & IHobj)]; [by repeat split|].
  repeat split.
  - intros s [|m] Hm; [lia|]. simpl. destruct s as [|c rest]; [done|].
    destruct (is_char 34 c); [done|].
    destruct (is_char 123 c).
    { destruct (skip_whitespace rest) as [|c1 r1]; [done|].
      destruct (is_char 125 c1); [done|]. apply IHobj. lia. }
    destruct (is_char 91 c); [|done].
    destruct (skip_whitespace rest) as [|c1 r1]; [done|].
    destruct (is_char 93 c1); [done|]. apply IHarr. lia.
  - intros values s [|m] Hm; [lia|]. simpl. intros Hfuel.
    rewrite (IHscan s m) by (lia || (intros H; by rewrite H in Hfuel)).
    destruct (scan_once n s) as [v r| |]; try done.
    destruct (skip_whitespace r) as [|c r1]; [done|].
    destruct (is_char 93 c); [done|].
    destruct (is_char 44 c); [|done]. apply IHarr; [lia|done].
  - intros pairs s [|m] Hm; [lia|]. simpl. intros Hfuel.
    destruct s as [|q r0]; [done|].
    destruct (negb (is_char 34 q)); [done|].
    destruct (scanstring 0 EmptyString r0) as [key r| |]; try done.
    destruct (skip_whitespace r) as [|c r1]; [done|].
    destruct (negb (is_char 58 c)); [done|].
    rewrite (IHscan (skip_whitespace r1) m) by (lia || (intros H; by rewrite H in Hfuel)).
    destruct (scan_once n (skip_whitespace r1)) as [v r2| |]; try done.
    destruct (skip_whitespace r2) as [|c2 r3]; [done|].
    destruct (is_char 125 c2); [done|].
    destruct (is_char 44 c2); [|done]. apply IHobj; [lia|done].
Qed.

(** A result reached with some fuel is the result of [json.loads]. *)
Lemma json_loads_parsed text n v rest :
  scan_once n (skip_whitespace text) = Parsed v rest ->
  skip_whitespace rest = EmptyString ->
  json_loads text = Ok v.
Proof.
  intros Hscan Hrest. unfold json_loads.
  destruct (scan_stable n) as (Hn & _ & _).
  destruct (scan_stable (S (2 * String.length text))) as (Hfull & _ & _).
  assert (scan_once (S (2 * String.length text)) (skip_whitespace text) = Parsed v rest) as ->.
  { destruct (Nat.le_ge_cases n (S (2 * String.length text))) as [Hle|Hge].
    - rewrite (Hn _ _ Hle), Hscan; [done|]. by rewrite Hscan.
    - rewrite <- (Hfull _ _ Hge), Hscan; [done|]. apply scan_once_fuel. }
  by rewrite Hrest.
Qed.

(** ** [fetch_questions] *)

Lemma append_assoc (a b c : string) : (a +:+ b) +:+ c = a +:+ (b +:+ c).
Proof.
  induction a as [|x a IH]; [done|].
  change (String x ((a +:+ b) +:+ c) = String x (a +:+ (b +:+ c))). by rewrite IH.
Qed.

(** [needle] occurs in [hay]. *)
Definition contains (needle hay : string) : Prop :=
  exists before after, hay = before +:+ needle +:+ after.

Lemma contains_here (needle before after : string) :
  contains needle (before +:+ needle +:+ after).
Proof. by exists before, after. Qed.

Lemma contains_skip (needle first rest : string) :
  contains needle rest -> contains needle (first +:+ rest).
Proof.
  intros (before & after & ->). exists (first +:+ before), after.
  by rewrite append_assoc.
Qed.

(** C8: whatever the text, the difficulty label and the number of questions,
    the prompt is not empty, the label is in it and the number, as
    [str] writes it, is in it: both in the sentence that asks for the
    quiz. *)
Theorem prompt_contains_label_and_count (text_content quiz_level : string) (num_questions : Z) :
  PROMPT_TEMPLATE text_content quiz_level num_questions <> EmptyString /\
  contains quiz_level (PROMPT_TEMPLATE text_content quiz_level num_questions) /\
  contains (str_int num_questions) (PROMPT_TEMPLATE text_content quiz_level num_questions) /\
  contains ("generate a quiz with " +:+ str_int num_questions +:+
            " multiple-choice questions at the '" +:+ quiz_level +:+ "' difficulty level.")
           (PROMPT_TEMPLATE text_content quiz_level num_questions).
Proof.
  unfold PROMPT_TEMPLATE. split; [intros H; discriminate H|]. split; [|split].
  - do 5 apply contains_skip. apply contains_here.
  - do 3 apply contains_skip. apply contains_here.
  - do 3 apply contains_skip.
    exists "    Given the text below, ", (nl +:+ nl +:+ "    Text: " +:+ text_content +:+ nl
            +:+ nl +:+ "    The format should strictly match this JSON:" +:+ nl
            +:+ "    " +:+ RESPONSE_JSON_dumps +:+ nl +:+ "    ").
    rewrite !append_assoc. reflexivity.
Qed.

(** The prompt of the sample run: five questions, [Easy]. *)
Example prompt_sample :
  PROMPT_TEMPLATE "abc" (level_label Easy) 5 =
    nl +:+
    "    You are an expert in generating MCQ quizzes based on provided content." +:+ nl +:+
    "    Given the text below, generate a quiz with 5 multiple-choice questions at the 'Easy' difficulty level." +:+ nl +:+
    nl +:+
    "    Text: abc" +:+ nl +:+
    nl +:+
    "    The format should strictly match this JSON:" +:+ nl +:+
    "    " +:+ RESPONSE_JSON_dumps +:+ nl +:+
    "    ".
Proof. reflexivity. Qed.

(** The example of the prompt is a document that decodes to [RESPONSE_JSON]. *)
Example response_json_decodes : json_loads RESPONSE_JSON_dumps = Ok RESPONSE_JSON.
Proof. vm_compute. reflexivity. Qed.

Section Fetch.

Variable generate_content : string -> res string.
Variables text_content quiz_level : string.
Variable num_questions : Z.
Variable response_text : string.

Hypothesis response :
  generate_content (PROMPT_TEMPLATE text_content quiz_level num_questions) = Ok response_text.

Lemma fetch_questions_decoded :
  fetch_questions generate_content text_content quiz_level num_questions =
    match json_loads response_text with
    | Ok extracted_response => py_get extracted_response "mcqs" (JArr [])
    | Raise _ => Ok (JArr [])
    end.
Proof.
  unfold fetch_questions. rewrite response. simpl.
  destruct (json_loads_total response_text) as [[v ->]| ->]; done.
Qed.



(** C9: a response that is a JSON object without the key ["mcqs"] gives the
    empty list, the very result of a response that is not JSON. *)
Theorem fetch_questions_missing_key (document : list (string * json)) :
  json_loads response_text = Ok (JObj document) ->
  dict_get document "mcqs" = None ->
  fetch_questions generate_content text_content quiz_level num_questions = Ok (JArr []) /\
  forall other_model other_text,
    other_model (PROMPT_TEMPLATE text_content quiz_level num_questions) = Ok other_text ->
    json_loads other_text = Raise JSONDecodeError ->
    fetch_questions other_model text_content quiz_level num_questions =
    fetch_questions generate_content text_content quiz_level num_questions.
Proof.
  intros Hdoc Hkey.
  assert (fetch_questions generate_content text_content quiz_level num_questions
          = Ok (JArr [])) as Hempty.
  { rewrite fetch_questions_decoded, Hdoc. simpl. by rewrite Hkey. }
  split; [done|]. intros other_model other_text Hother Hjson.
  rewrite Hempty. unfold fetch_questions. rewrite Hother. simpl. by rewrite Hjson.
Qed.

End Fetch.

(** ** Writing a document

    [json.dumps] on what a quiz is made of: strings, arrays and objects,
    with the separators [", "] and [": "]; in a string the quote, the
    backslash and the control characters are escaped, nothing else
    ([ensure_ascii=False]). *)

Definition hex_digit (n : N) : ascii :=
  if N.ltb n 10 then chr (48 + n) else chr (87 + n).

Definition escape_char (c : ascii) : string :=
  if is_char 34 c then String (chr 92) (str1 dquote)
  else if is_char 92 c then "\\"
  else if is_char 10 c then "\n"
  else if is_char 13 c then "\r"
  else if is_char 9 c then "\t"
  else if is_char 8 c then "\b"
  else if is_char 12 c then "\f"
  else if N.ltb (ord c) 32 then
    "\u00" +:+ String (hex_digit (N.shiftr (ord c) 4)) (str1 (hex_digit (N.land (ord c) 15)))
  else str1 c.

Fixpoint escape (s : string) : string :=
  match s with
  | EmptyString => EmptyString
  | String c rest => escape_char c +:+ escape rest
  end.

Definition encode_string (s : string) : string :=
  String dquote (escape s +:+ str1 dquote).

(** The items of an array or the members of an object, already written,
    joined by [", "]. *)
Fixpoint join (texts : list string) : string :=
  match texts with
  | [] => EmptyString
  | [text] => text
  | text :: rest => text +:+ ", " +:+ join rest
  end.

Definition array_text (items : list string) : string := "[" +:+ join items +:+ "]".

Definition member_text (member : string * string) : string :=
  encode_string member.1 +:+ ": " +:+ member.2.

Definition object_text (members : list (string * string)) : string :=
  "{" +:+ join (member_text <$> members) +:+ "}".

Lemma append_nil_r (s : string) : s +:+ EmptyString = s.
Proof.
  induction s as [|c s IH]; [done|].
  change (String c (s +:+ EmptyString) = String c s). by rewrite IH.
Qed.

Lemma append_cons (c : ascii) (s t : string) : String c s +:+ t = String c (s +:+ t).
Proof. done. Qed.

Lemma scanstring_escape_char (c : ascii) (acc rest : string) :
  scanstring 0 acc (escape_char c +:+ rest) = scanstring 0 (acc +:+ str1 c) rest.
Proof.
  destruct c as [[] [] [] [] [] [] [] []]; reflexivity.
Qed.

Lemma scanstring_escape (s : string) : forall acc rest,
  scanstring 0 acc (escape s +:+ String dquote rest) = Parsed (acc +:+ s) rest.
Proof.
  induction s as [|c s IH]; intros acc rest.
  - by rewrite append_nil_r.
  - simpl escape. rewrite append_assoc, scanstring_escape_char, IH, append_assoc. done.
Qed.

(** [text] is read as [v], whatever follows it, with [fuel] or more. *)
Definition reads (text : string) (v : json) (fuel : nat) : Prop :=
  forall n rest, (fuel <= n)%nat -> scan_once n (text +:+ rest) = Parsed v rest.

(** A value does not begin with white space, nor with a closing bracket. *)
Lemma value_start n s v r :
  scan_once n s = Parsed v r ->
  exists c s', s = String c s' /\
    is_whitespace c = false /\ is_char 93 c = false /\ is_char 125 c = false.
Proof.
  destruct n as [|n]; [done|]. destruct s as [|c s']; [done|].
  intros H. exists c, s'. split; [done|].
  destruct c as [[] [] [] [] [] [] [] []]; try done; simpl in H; discriminate H.
Qed.

Lemma reads_start text v fuel rest :
  reads text v fuel ->
  exists c s', text +:+ rest = String c s' /\
    is_whitespace c = false /\ is_char 93 c = false /\ is_char 125 c = false.
Proof. intros H. by eapply value_start, (H fuel). Qed.

Lemma reads_skip_whitespace text v fuel rest :
  reads text v fuel -> skip_whitespace (text +:+ rest) = text +:+ rest.
Proof.
  intros H. destruct (reads_start text v fuel rest H) as (c & s' & -> & Hws & _).
  simpl. by rewrite Hws.
Qed.

Lemma reads_string s : reads (encode_string s) (JStr s) 1.
Proof.
  intros [|n] rest Hn; [lia|]. unfold encode_string.
  rewrite append_cons, append_assoc. change (str1 dquote +:+ rest) with (String dquote rest).
  change (scan_once (S n) (String dquote ?x)) with
    (match scanstring 0 EmptyString x with
     | Parsed str r => Parsed (JStr str) r
     | Invalid => Invalid
     | NoFuel => NoFuel
     end).
  by rewrite scanstring_escape.
Qed.

Lemma dict_set_fresh {V} (k : string) (v : V) (d : list (string * V)) :
  k ∉ d.*1 -> dict_set k v d = d ++ [(k, v)].
Proof.
  induction d as [|[k' v'] d IH]; [done|]. simpl. intros Hk.
  apply not_elem_of_cons in Hk as [Hne Hk].
  destruct (String.eqb_spec k' k) as [->|_]; [done|]. by rewrite IH.
Qed.

Lemma join_cons (text text' : string) (texts : list string) :
  join (text :: text' :: texts) = text +:+ ", " +:+ join (text' :: texts).
Proof. done. Qed.

(** What is written begins with its first text. *)
Lemma join_head (text : string) (texts : list string) (after : string) :
  exists tail, join (text :: texts) +:+ after = text +:+ tail.
Proof.
  destruct texts as [|text' texts]; [by eexists|].
  rewrite join_cons, !append_assoc. by eexists.
Qed.

(** One round of the loop of an array, over an item that is read. *)
Lemma parse_array_item n values text v fuel tail :
  reads text v fuel -> (fuel <= n)%nat ->
  parse_array (S n) values (text +:+ tail) =
    match skip_whitespace tail with
    | String c r1 =>
        if is_char 93 c then Parsed (JArr (values ++ [v])) r1
        else if is_char 44 c then parse_array n (values ++ [v]) (skip_whitespace r1)
        else Invalid
    | EmptyString => Invalid
    end.
Proof.
  intros Hreads Hn.
  change (parse_array (S n) values (text +:+ tail)) with
    (match scan_once n (text +:+ tail) with
     | Parsed v r =>
         match skip_whitespace r with
         | String c r1 =>
             if is_char 93 c then Parsed (JArr (values ++ [v])) r1
             else if is_char 44 c then parse_array n (values ++ [v]) (skip_whitespace r1)
             else Invalid
         | EmptyString => Invalid
         end
     | Invalid => Invalid
     | NoFuel => NoFuel
     end).
  by rewrite Hreads.
Qed.

(** The loop of an array over items that are read. *)
Lemma parse_array_join (items : list (string * json)) fuel : forall values n rest,
  items <> [] ->
  Forall (fun item => reads item.1 item.2 fuel) items ->
  (fuel + length items <= n)%nat ->
  parse_array n values (join items.*1 +:+ "]" +:+ rest) =
    Parsed (JArr (values ++ items.*2)) rest.
Proof.
  induction items as [|[text v] items IH]; intros values n rest Hne Hall Hn; [done|].
  apply Forall_cons in Hall as [Hitem Hall]. cbn [fst snd] in Hitem.
  rewrite length_cons in Hn. destruct n as [|n]; [lia|].
  destruct items as [|[text' v'] items].
  - change (join [(text, v)].*1) with text.
    by rewrite (parse_array_item n values text v fuel) by (done || lia).
  - change (join ((text, v) :: (text', v') :: items).*1)
      with (text +:+ ", " +:+ join ((text', v') :: items).*1).
    rewrite !append_assoc.
    rewrite (parse_array_item n values text v fuel) by (done || lia).
    change (", " +:+ ?y) with (String "," (String " " y)).
    change (skip_whitespace (String "," ?y)) with (String "," y).
    cbv beta iota. change (is_char 93 ",") with false. change (is_char 44 ",") with true.
    cbv beta iota. change (skip_whitespace (String " " ?y)) with (skip_whitespace y).
    pose proof (Forall_inv Hall) as Hnext. cbn [fst snd] in Hnext.
    destruct (join_head text' items.*1 ("]" +:+ rest)) as [tail Htail].
    change ((text', v') :: items).*1 with (text' :: items.*1).
    rewrite Htail, (reads_skip_whitespace _ _ _ _ Hnext), <- Htail.
    change (text' :: items.*1) with ((text', v') :: items).*1.
    rewrite (IH (values ++ [v]) n rest); [|done|done|lia].
    by rewrite <- app_assoc.
Qed.

Lemma reads_array (items : list (string * json)) fuel :
  Forall (fun item => reads item.1 item.2 fuel) items ->
  reads (array_text items.*1) (JArr items.*2) (fuel + length items + 1).
Proof.
  intros Hall n rest Hn. destruct n as [|n]; [lia|].
  unfold array_text. rewrite !append_assoc.
  change ("[" +:+ ?y) with (String "[" y).
  change (scan_once (S n) (String "[" ?y)) with
    (match skip_whitespace y with
     | String c1 r1 as r0 =>
         if is_char 93 c1 then Parsed (JArr []) r1 else parse_array n [] r0
     | EmptyString => Invalid
     end).
  destruct items as [|[text v] items]; [done|].
  destruct (join_head text items.*1 ("]" +:+ rest)) as [tail Htail].
  change ((text, v) :: items).*1 with (text :: items.*1). rewrite Htail.
  pose proof (Forall_inv Hall) as Hfirst. cbn [fst snd] in Hfirst.
  rewrite (reads_skip_whitespace _ _ _ _ Hfirst).
  destruct (reads_start _ _ _ tail Hfirst) as (c & s' & Hs & _ & Hclose & _).
  rewrite Hs, Hclose, <- Hs, <- Htail.
  change (text :: items.*1) with ((text, v) :: items).*1.
  rewrite (parse_array_join _ fuel []); [done|done|done|].
  rewrite length_cons in *. lia.
Qed.

Lemma reads_mono text v fuel fuel' :
  reads text v fuel -> (fuel <= fuel')%nat -> reads text v fuel'.
Proof. intros H Hle n rest Hn. apply H. lia. Qed.

Lemma member_text_app key text tail :
  member_text (key, text) +:+ tail =
    String dquote (escape key +:+ String dquote (String ":" (String " " (text +:+ tail)))).
Proof.
  unfold member_text, encode_string. cbn [fst snd].
  by rewrite !append_assoc, append_cons, !append_assoc.
Qed.

(** One round of the loop of an object, over a member whose value is
    read. *)
Lemma parse_object_member n pairs key text v fuel tail :
  reads text v fuel -> (fuel <= n)%nat ->
  parse_object (S n) pairs (member_text (key, text) +:+ tail) =
    match skip_whitespace tail with
    | String c r1 =>
        if is_char 125 c then Parsed (JObj (dict_set key v pairs)) r1
        else if is_char 44 c then parse_object n (dict_set key v pairs) (skip_whitespace r1)
        else Invalid
    | EmptyString => Invalid
    end.
Proof.
  intros Hreads Hn. rewrite member_text_app.
  change (parse_object (S n) pairs (String dquote ?r0)) with
    (match scanstring 0 EmptyString r0 with
     | Parsed key r =>
         match skip_whitespace r with
         | String c r1 =>
             if negb (is_char 58 c) then Invalid
             else
               match scan_once n (skip_whitespace r1) with
               | Parsed v r2 =>
                   match skip_whitespace r2 with
                   | String c2 r3 =>
                       if is_char 125 c2 then Parsed (JObj (dict_set key v pairs)) r3
                       else if is_char 44 c2 then
                         parse_object n (dict_set key v pairs) (skip_whitespace r3)
                       else Invalid
                   | EmptyString => Invalid
                   end
               | Invalid => Invalid
               | NoFuel => NoFuel
               end
         | EmptyString => Invalid
         end
     | Invalid => Invalid
     | NoFuel => NoFuel
     end).
  rewrite scanstring_escape. change (EmptyString +:+ key) with key.
  change (skip_whitespace (String ":" ?y)) with (String ":" y).
  cbv beta iota. change (negb (is_char 58 ":")) with false. cbv beta iota.
  change (skip_whitespace (String " " ?y)) with (skip_whitespace y).
  by rewrite (reads_skip_whitespace _ _ _ _ Hreads), Hreads.
Qed.

(** The members of an object as they are written and as they are read: the
    key, the text of the value, the value. *)
Definition written (member : string * string * json) : string * string :=
  (member.1.1, member.1.2).
Definition read (member : string * string * json) : string * json :=
  (member.1.1, member.2).

Lemma parse_object_join (members : list (string * string * json)) fuel : forall pairs n rest,
  members <> [] ->
  Forall (fun member => reads member.1.2 member.2 fuel) members ->
  NoDup (pairs.*1 ++ (read <$> members).*1) ->
  (fuel + length members <= n)%nat ->
  parse_object n pairs (join (member_text <$> (written <$> members)) +:+ "}" +:+ rest) =
    Parsed (JObj (pairs ++ (read <$> members))) rest.
Proof.
  induction members as [|[[key text] v] members IH];
    intros pairs n rest Hne Hall Hkeys Hn; [done|].
  apply Forall_cons in Hall as [Hmember Hall]. cbn [fst snd] in Hmember.
  rewrite length_cons in Hn. destruct n as [|n]; [lia|].
  assert (key ∉ pairs.*1) as Hfresh.
  { intros Hin. apply NoDup_app in Hkeys as (_ & Hdisjoint & _).
    apply (Hdisjoint key Hin). simpl. by left. }
  assert (NoDup ((pairs ++ [(key, v)]).*1 ++ (read <$> members).*1)) as Hkeys'.
  { rewrite fmap_app, <- app_assoc. exact Hkeys. }
  destruct members as [|member' members].
  - change (join (member_text <$> (written <$> [(key, text, v)])))
      with (member_text (key, text)).
    rewrite (parse_object_member n pairs key text v fuel) by (done || lia).
    by rewrite dict_set_fresh.
  - change (join (member_text <$> (written <$> (key, text, v) :: member' :: members)))
      with (member_text (key, text) +:+ ", " +:+
            join (member_text <$> (written <$> member' :: members))).
    rewrite !append_assoc.
    rewrite (parse_object_member n pairs key text v fuel) by (done || lia).
    change (", " +:+ ?y) with (String "," (String " " y)).
    change (skip_whitespace (String "," ?y)) with (String "," y).
    cbv beta iota. change (is_char 125 ",") with false. change (is_char 44 ",") with true.
    cbv beta iota. change (skip_whitespace (String " " ?y)) with (skip_whitespace y).
    destruct (join_head (member_text (written member'))
                (member_text <$> (written <$> members)) ("}" +:+ rest)) as [tail Htail].
    change (member_text <$> (written <$> member' :: members))
      with (member_text (written member') :: (member_text <$> (written <$> members))).
    rewrite Htail.
    destruct member' as [[key' text'] v'].
    change (written (key', text', v')) with (key', text') in *.
    rewrite (member_text_app key' text' tail).
    change (skip_whitespace (String dquote ?y)) with (String dquote y).
    rewrite <- (member_text_app key' text' tail), <- Htail.
    change (member_text (key', text') :: (member_text <$> (written <$> members)))
      with (member_text <$> (written <$> (key', text', v') :: members)).
    rewrite dict_set_fresh by done.
    rewrite (IH (pairs ++ [(key, v)]) n rest); [|done|done|done|lia].
    by rewrite <- app_assoc.
Qed.

Lemma reads_object (members : list (string * string * json)) fuel :
  Forall (fun member => reads member.1.2 member.2 fuel) members ->
  NoDup (read <$> members).*1 ->
  reads (object_text (written <$> members)) (JObj (read <$> members))
        (fuel + length members + 1).
Proof.
  intros Hall Hkeys n rest Hn. destruct n as [|n]; [lia|].
  unfold object_text. rewrite !append_assoc.
  change ("{" +:+ ?y) with (String "{" y).
  change (scan_once (S n) (String "{" ?y)) with
    (match skip_whitespace y with
     | String c1 r1 as r0 =>
         if is_char 125 c1 then Parsed (JObj []) r1 else parse_object n [] r0
     | EmptyString => Invalid
     end).
  destruct members as [|member members]; [done|].
  destruct (join_head (member_text (written member))
              (member_text <$> (written <$> members)) ("}" +:+ rest)) as [tail Htail].
  change (member_text <$> (written <$> member :: members))
    with (member_text (written member) :: (member_text <$> (written <$> members))).
  rewrite Htail.
  destruct member as [[key text] v].
  change (written (key, text, v)) with (key, text) in *.
  rewrite (member_text_app key text tail).
  change (skip_whitespace (String dquote ?y)) with (String dquote y).
  cbv beta iota. change (is_char 125 dquote) with false. cbv beta iota.
  rewrite <- (member_text_app key text tail), <- Htail.
  change (member_text (key, text) :: (member_text <$> (written <$> members)))
    with (member_text <$> (written <$> (key, text, v) :: members)).
  rewrite (parse_object_join _ fuel []); [done|done|done|done|].
  rewrite length_cons in *. lia.
Qed.

(** ** Quiz documents

    A question as the spec has it, the JSON object it is in a response, and
    the text of a response made of such questions. *)

Record Question := mkQuestion {
  prompt : string;
  option_texts : list (string * string);
  correct_key : string
}.

Definition string_member (key value : string) : string * string * json :=
  (key, encode_string value, JStr value).

Definition option_members (q : Question) : list (string * string * json) :=
  (fun option => string_member option.1 option.2) <$> option_texts q.

Definition question_members (q : Question) : list (string * string * json) :=
  [string_member "mcq" (prompt q);
   ("options", object_text (written <$> option_members q),
    JObj (read <$> option_members q));
   string_member "correct" (correct_key q)].

Definition question_json (q : Question) : json := JObj (read <$> question_members q).
Definition question_text (q : Question) : string :=
  object_text (written <$> question_members q).

Definition quiz_items (qs : list Question) : list (string * json) :=
  (fun q => (question_text q, question_json q)) <$> qs.

Definition quiz_members (qs : list Question) : list (string * string * json) :=
  [("mcqs", array_text (quiz_items qs).*1, JArr (quiz_items qs).*2)].

Definition response_json (qs : list Question) : json := JObj (read <$> quiz_members qs).
Definition response_text (qs : list Question) : string :=
  object_text (written <$> quiz_members qs).

(** The options of a question have keys of their own. *)
Definition well_formed (q : Question) : Prop := NoDup (option_texts q).*1.

Lemma question_json_fields (q : Question) :
  py_getitem (question_json q) "mcq" = Ok (JStr (prompt q)) /\
  py_getitem (question_json q) "options" =
    Ok (JObj ((fun option => (option.1, JStr option.2)) <$> option_texts q)) /\
  py_getitem (question_json q) "correct" = Ok (JStr (correct_key q)).
Proof.
  repeat split. simpl. do 2 f_equal. unfold option_members.
  rewrite <- list_fmap_compose. done.
Qed.

Lemma response_json_mcqs (qs : list Question) :
  response_json qs = JObj [("mcqs", JArr (question_json <$> qs))].
Proof.
  unfold response_json, quiz_members, quiz_items, read. cbn [fmap list_fmap fst snd].
  by rewrite <- list_fmap_compose.
Qed.

Lemma reads_question (q : Question) :
  well_formed q ->
  reads (question_text q) (question_json q) (length (option_texts q) + 6).
Proof.
  intros Hkeys. unfold question_text, question_json.
  eapply reads_mono; [apply (reads_object _ (length (option_texts q) + 2))|simpl; lia].
  - repeat constructor; cbn [fst snd string_member].
    + eapply reads_mono; [apply reads_string|lia].
    + eapply reads_mono; [apply (reads_object _ 1)|].
      * unfold option_members. apply Forall_fmap, Forall_forall. intros option _.
        apply reads_string.
      * unfold option_members. rewrite <- !list_fmap_compose. exact Hkeys.
      * unfold option_members. rewrite length_fmap. lia.
    + eapply reads_mono; [apply reads_string|lia].
  - by apply (bool_decide_unpack _).
Qed.

(** The questions of a quiz need no more fuel than its longest list of
    options asks for. *)
Definition quiz_fuel (qs : list Question) : nat :=
  max_list ((fun q => length (option_texts q)) <$> qs) + 6.

Lemma reads_response (qs : list Question) :
  Forall well_formed qs ->
  reads (response_text qs) (response_json qs) (quiz_fuel qs + length qs + 3).
Proof.
  intros Hqs. unfold response_text, response_json.
  eapply reads_mono; [apply (reads_object _ (quiz_fuel qs + length qs + 1))|simpl; lia].
  - repeat constructor; cbn [fst snd].
    eapply reads_mono; [apply (reads_array _ (quiz_fuel qs))|].
    + unfold quiz_items. apply Forall_fmap. cbn [fst snd].
      eapply Forall_impl; [apply Forall_and; split; [exact Hqs|]|].
      * apply (Forall_forall (fun q => q ∈ qs)). by intros q Hq.
      * intros q [Hq Hin]. simpl. eapply reads_mono; [by apply reads_question|].
        unfold quiz_fuel. apply Nat.add_le_mono_r.
        apply max_list_elem_of_le, list_elem_of_fmap. by exists q.
    + unfold quiz_items. rewrite length_fmap. lia.
  - by apply (bool_decide_unpack _).
Qed.

(** The text of a response decodes to the questions it was written from. *)
Lemma json_loads_response (qs : list Question) :
  Forall well_formed qs ->
  json_loads (response_text qs) = Ok (JObj [("mcqs", JArr (question_json <$> qs))]).
Proof.
  intros Hqs. rewrite <- response_json_mcqs.
  apply (json_loads_parsed _ (quiz_fuel qs + length qs + 3) _ EmptyString); [|done].
  change (skip_whitespace (response_text qs)) with (response_text qs).
  rewrite <- (append_nil_r (response_text qs)) at 1.
  by apply reads_response.
Qed.

Example response_text_sample :
  response_text [mkQuestion "One?" [("a", "x"); ("b", "y")] "b";
                 mkQuestion "Two?" [("a", "u"); ("b", "v")] "a"] = two_questions.
Proof. vm_compute. reflexivity. Qed.

(** X1: a response that is the JSON text of a list of questions, each
    with options under keys of their own, gives those questions, as many
    and in their order: what [json.loads] and the lookup of ["mcqs"] make of
    the text is what it was written from. *)
Theorem fetch_questions_reads_records (generate_content : string -> res string)
    (text_content quiz_level : string) (num_questions : Z) (qs : list Question) :
  generate_content (PROMPT_TEMPLATE text_content quiz_level num_questions)
    = Ok (response_text qs) ->
  Forall well_formed qs ->
  fetch_questions generate_content text_content quiz_level num_questions
    = Ok (JArr (question_json <$> qs)) /\
  length (question_json <$> qs) = length qs.
Proof.
  intros Hresponse Hqs. split; [|by rewrite length_fmap].
  rewrite (fetch_questions_decoded _ _ _ _ _ Hresponse).
  by rewrite (json_loads_response qs Hqs).
Qed.


(** ** A program logic for runs

    [hoare P m Q E]: from a world where [P] holds, [m] either returns [a] in
    a world where [Q a] holds, or stops, by an exception or by a rerun, in a
    world where [E] holds of the way it stopped.  What a run did to the
    world before it stopped stays done, so an invariant has to hold at every
    point where a run can stop. *)

Inductive stop :=
| Raised (e : exn)
| Rerun.

Definition hoare {A} (P : World -> Prop) (m : M A)
    (Q : A -> World -> Prop) (E : stop -> World -> Prop) : Prop :=
  forall r, P (world r) ->
    match m r with
    | (r', Returns a) => Q a (world r')
    | (r', Raises e) => E (Raised e) (world r')
    | (r', Reruns) => E Rerun (world r')
    end.

Lemma hoare_ret {A} (a : A) (P : World -> Prop) (Q : A -> World -> Prop) E :
  (forall w, P w -> Q a w) -> hoare P (mret a) Q E.
Proof. intros HPQ r H. by apply HPQ. Qed.

Lemma hoare_bind {A B} P (m : M A) (k : A -> M B) Q R E :
  hoare P m Q E -> (forall a, hoare (Q a) (k a) R E) -> hoare P (m ≫= k) R E.
Proof.
  intros Hm Hk r HP. specialize (Hm r HP).
  unfold mbind, M_bind. destruct (m r) as [r' [a|e|]]; try done.
  by apply Hk.
Qed.

Lemma hoare_pre {A} (P P' : World -> Prop) (m : M A) Q E :
  (forall w, P w -> P' w) -> hoare P' m Q E -> hoare P m Q E.
Proof. intros HP Hm r Hr. by apply Hm, HP. Qed.

Lemma hoare_post {A} (P : World -> Prop) (m : M A) (Q Q' : A -> World -> Prop) E :
  (forall a w, Q' a w -> Q a w) -> hoare P m Q' E -> hoare P m Q E.
Proof.
  intros HQ Hm r Hr. specialize (Hm r Hr).
  destruct (m r) as [r' [a|e|]]; auto.
Qed.

(** A fact that does not speak of the world can be taken out of the
    precondition, and a consequence of the precondition can be used. *)
Lemma hoare_pure {A} (fact : Prop) (P : World -> Prop) (m : M A) Q E :
  (fact -> hoare P m Q E) -> hoare (fun w => P w /\ fact) m Q E.
Proof. intros Hm r [Hr Hfact]. by apply Hm. Qed.

Lemma hoare_assert {A} (fact : Prop) (P : World -> Prop) (m : M A) Q E :
  (forall w, P w -> fact) -> (fact -> hoare P m Q E) -> hoare P m Q E.
Proof. intros Hfact Hm r Hr. apply Hm; eauto. Qed.

Lemma hoare_lift {A} (v : res A) (P : World -> Prop) E :
  (forall e w, P w -> v = Raise e -> E (Raised e) w) ->
  hoare P (lift v) (fun a w => P w /\ v = Ok a) E.
Proof. intros HE r H. unfold lift. destruct v; simpl; auto. Qed.

Lemma hoare_emit (e : element) (P : World -> Prop) E :
  hoare P (emit e) (fun _ => P) E.
Proof. by intros r H. Qed.

Lemma hoare_rerun {A} (P : World -> Prop) (Q : A -> World -> Prop) E :
  (forall w, P w -> E Rerun w) -> hoare P st_rerun Q E.
Proof. intros HE r H. by apply HE. Qed.

Lemma hoare_get_session (P : World -> Prop) E :
  hoare P get_session (fun s w => P w /\ s = session w) E.
Proof. by intros r H. Qed.

Lemma hoare_modify_session f (P Q : World -> Prop) E :
  (forall w, P w -> Q (on_session f w)) -> hoare P (modify_session f) (fun _ => Q) E.
Proof. intros H r Hr. by apply H. Qed.

(** An attribute that is read is there, with the value read. *)
Lemma hoare_attribute {A} (field : SessionState -> option A) (P : World -> Prop) E :
  (forall w, P w -> field (session w) = None -> E (Raised AttributeError) w) ->
  hoare P (attribute field) (fun v w => P w /\ field (session w) = Some v) E.
Proof.
  intros HE r H. unfold attribute.
  destruct (field (session (world r))) eqn:Hf; simpl; auto.
Qed.

(** A call of [fetch_questions] only touches the cache. *)
Lemma hoare_call_fetch_questions gen text level n (P : World -> Prop) Q E :
  (forall w, P w ->
     match cache_data_fetch_questions (cache w) gen text level n with
     | (c, Ok v) => Q v {| session := session w; cache := c |}
     | (c, Raise e) => E (Raised e) {| session := session w; cache := c |}
     end) ->
  hoare P (call_fetch_questions gen text level n) Q E.
Proof.
  intros H r Hr. unfold call_fetch_questions. specialize (H _ Hr).
  by destruct (cache_data_fetch_questions _ _ _ _ _) as [c [v|e]].
Qed.

(** One statement of the script, then the rest: a statement that only draws,
    a Python operation whose value [x] is named with the fact [H] that it
    returned it, and the reading of an attribute. *)
Ltac step_emit :=
  eapply hoare_bind; [apply hoare_emit|intros ?; cbv beta].
Ltac step_lift x H :=
  eapply hoare_bind;
  [apply hoare_lift; try done|intros x; cbv beta; apply hoare_pure; intros H].
Ltac step_attribute x :=
  eapply hoare_bind; [apply hoare_attribute; try done|intros x; cbv beta].

(** *** Runs that return

    What a statement that returned did, read off the result. *)

Lemma bind_returns {A B} (m : M A) (k : A -> M B) r r' b :
  (m ≫= k) r = (r', Returns b) ->
  exists r1 a, m r = (r1, Returns a) /\ k a r1 = (r', Returns b).
Proof.
  unfold mbind, M_bind. destruct (m r) as [r1 [a|e|]]; [by eauto|done..].
Qed.

Lemma mret_returns {A} (a b : A) r r' :
  (mret a : M A) r = (r', Returns b) -> b = a /\ r' = r.
Proof. by intros [= -> ->]. Qed.

Lemma lift_returns {A} (v : res A) r r' a :
  lift v r = (r', Returns a) -> v = Ok a /\ r' = r.
Proof. unfold lift. destruct v; by intros [= -> ->]. Qed.

Lemma emit_returns e r r' u :
  emit e r = (r', Returns u) -> r' = {| world := world r; page := page r ++ [e] |}.
Proof. by intros [= <-]. Qed.

Lemma attribute_returns {A} (field : SessionState -> option A) r r' v :
  attribute field r = (r', Returns v) -> field (session (world r)) = Some v /\ r' = r.
Proof.
  unfold attribute. destruct (field (session (world r))); by intros [= -> ->].
Qed.

(** *** The form *)

(** A question the form can draw: it has a prompt and a dictionary of
    options. *)
Definition draws (question : json) : Prop :=
  exists mcq options items,
    py_getitem question "mcq" = Ok mcq /\
    py_getitem question "options" = Ok options /\
    py_items options = Ok items.

(** While the form is drawn the questions stay [qs], and the keys of the
    selections stay below [bound]. *)
Definition drawing (qs : json) (bound : nat) (w : World) : Prop :=
  questions (session w) = Some qs /\
  forall d, selected_options (session w) = Some d ->
    forall i : nat, i ∈ dom d -> (i < bound)%nat.

Section Session.

Variable format_value : json -> string.
Variable str_upper : string -> string.

(** The body of the loop of the form keeps what a selection at its index
    keeps, and stops only on a question it cannot draw or for want of
    [selected_options]. *)
Lemma form_question_spec inp (i : nat) question (P : World -> Prop) E :
  (forall w d k, P w -> selected_options (session w) = Some d ->
     P (on_session (with_selected_options (<[i := k]> d)) w)) ->
  (forall e w, P w -> ~ (draws question /\ is_Some (selected_options (session w))) ->
     E (Raised e) w) ->
  hoare P (form_question format_value inp i question) (fun _ => P) E.
Proof.
  intros Hins Hstop. unfold form_question.
  step_lift mcq Hmcq.
  { intros e w Hw Hr. apply Hstop; [done|]. intros [(? & ? & ? & ? & _) _]. congruence. }
  step_emit.
  step_lift options Hoptions.
  { intros e w Hw Hr. apply Hstop; [done|]. intros [(? & ? & ? & _ & ? & _) _]. congruence. }
  step_lift items Hitems.
  { intros e w Hw Hr. apply Hstop; [done|]. intros [(? & ? & ? & _ & ? & ?) _]. congruence. }
  step_emit.
  destruct (truthy _); [|by apply hoare_ret].
  destruct (_ ≫= _) as [label|]; [|by apply hoare_ret].
  step_attribute d.
  { intros w Hw Hnone. apply Hstop; [done|]. intros [_ [? ?]]. congruence. }
  apply hoare_modify_session. intros w [Hw Hd]. by apply Hins.
Qed.

Lemma form_loop_spec inp (P : World -> Prop) E items : forall i : nat,
  (forall w d (j : nat) k, (i <= j < i + length items)%nat ->
     P w -> selected_options (session w) = Some d ->
     P (on_session (with_selected_options (<[j := k]> d)) w)) ->
  (forall e w, P w -> ~ (Forall draws items /\ is_Some (selected_options (session w))) ->
     E (Raised e) w) ->
  hoare P (form_loop format_value inp i items) (fun _ => P) E.
Proof.
  induction items as [|question rest IH]; intros i Hins Hstop; simpl.
  - by apply hoare_ret.
  - eapply hoare_bind; [|intros ?; cbv beta].
    + apply form_question_spec.
      * intros w d k. apply Hins. simpl. lia.
      * intros e w Hw Hnot. apply Hstop; [done|].
        intros [Hall Hsel]. apply Hnot. split; [|done]. by inversion Hall.
    + apply IH.
      * intros w d j k Hj. apply Hins. simpl. lia.
      * intros e w Hw Hnot. apply Hstop; [done|].
        intros [Hall Hsel]. apply Hnot. split; [|done]. by inversion Hall.
Qed.

(** *** Scoring changes nothing in the world *)

Lemma score_question_world (P : World -> Prop) (i : nat) question marks :
  hoare P (score_question format_value str_upper i question marks)
        (fun _ => P) (fun _ => P).
Proof.
  unfold score_question.
  step_lift mcq Hmcq. step_emit.
  step_attribute d. apply (hoare_pre _ P); [by intros w [H _]|].
  step_lift correct_letter Hcorrect.
  apply (hoare_bind _ _ _ (fun _ => P)); [|intros ?].
  - destruct (truthy _); [|apply hoare_emit].
    destruct (d !! i); [|by apply hoare_ret].
    step_lift options Hoptions. step_lift text Htext. apply hoare_emit.
  - apply (hoare_bind _ _ _ (fun _ => P)); [|intros ?; by apply hoare_ret].
    destruct correct_letter;
      try (eapply hoare_post; [|by apply hoare_lift]; by intros ? ? [H _]).
    step_lift options Hoptions. step_lift text Htext. apply hoare_emit.
Qed.

Lemma score_loop_world (P : World -> Prop) items : forall (i : nat) marks,
  hoare P (score_loop format_value str_upper i items marks) (fun _ => P) (fun _ => P).
Proof.
  induction items as [|question rest IH]; intros i marks; simpl.
  - by apply hoare_ret.
  - eapply hoare_bind; [apply score_question_world|intros marks']. apply IH.
Qed.

Lemma show_results_world (P : World -> Prop) :
  hoare P (show_results format_value str_upper) (fun _ => P) (fun _ => P).
Proof.
  unfold show_results. step_emit. step_emit.
  step_attribute qs. apply (hoare_pre _ P); [by intros w [H _]|].
  step_lift items Hitems.
  eapply hoare_bind; [apply score_loop_world|intros marks; cbv beta].
  step_attribute qs'. apply (hoare_pre _ P); [by intros w [H _]|].
  step_lift len Hlen. step_lift ratio Hratio.
  step_emit. step_emit. step_emit. apply hoare_emit.
Qed.

(** *** The invariants of the session *)

(** The number of questions of the session: [len(st.session_state.questions)]
    where that is defined. *)
Definition question_count (s : SessionState) : Z :=
  match questions s with
  | Some qs =>
      match py_len qs with
      | Ok n => n
      | Raise _ => 0
      end
  | None => 0
  end.

(** The keys of [selected_options] are indices of questions. *)
Definition keys_valid (s : SessionState) : Prop :=
  forall d, selected_options s = Some d ->
    forall i : nat, i ∈ dom d -> 0 <= Z.of_nat i < question_count s.

Definition world_keys_valid (w : World) : Prop := keys_valid (session w).

(** A question whose [correct] is a key of its [options]. *)
Definition question_checked (question : json) : Prop :=
  exists options correct text,
    py_getitem question "options" = Ok options /\
    py_getitem question "correct" = Ok (JStr correct) /\
    py_getitem options correct = Ok text.

(** A value all of whose questions are so. *)
Definition checked (v : json) : Prop :=
  forall items, py_iter v = Ok items -> Forall question_checked items.

(** A model all of whose answers give checked questions.  The script does
    not look at what it gets. *)
Definition model_checked (inp : Inputs) : Prop :=
  forall text level n v,
    fetch_questions (generate_content inp) text level n = Ok v -> checked v.

Definition world_checked (w : World) : Prop :=
  (forall qs, questions (session w) = Some qs -> checked qs) /\
  (forall k v, cache w !! k = Some v -> checked v).

Lemma py_iter_len qs items :
  py_iter qs = Ok items -> py_len qs = Ok (Z.of_nat (length items)).
Proof.
  destruct qs; simpl; try done; intros [= <-]; by rewrite ?length_fmap.
Qed.

Lemma keys_valid_no_selection s : keys_valid (with_selected_options ∅ s).
Proof. intros d [= <-] i Hi. by rewrite dom_empty_L in Hi. Qed.

(** Every run of the script keeps the keys of the selections valid,
    however it ends. *)
Lemma main_keys_valid inp :
  hoare world_keys_valid (main format_value str_upper inp)
        (fun _ => world_keys_valid) (fun _ => world_keys_valid).
Proof.
  unfold main.
  eapply hoare_bind; [apply hoare_get_session|intros s; cbv beta].
  apply (hoare_bind _ _ _ (fun _ => world_keys_valid)); [|intros ?].
  { destruct (quiz_generated s); [by apply hoare_ret; intros w [H _]|].
    apply hoare_modify_session. by intros w [H _]. }
  eapply hoare_bind; [apply hoare_get_session|intros s'; cbv beta].
  apply (hoare_bind _ _ _ (fun _ => world_keys_valid)); [|intros ?].
  { destruct (selected_options s'); [by apply hoare_ret; intros w [H _]|].
    apply hoare_modify_session. intros w _. apply keys_valid_no_selection. }
  step_emit.
  apply (hoare_bind _ _ _ (fun _ => world_keys_valid)); [|intros ?].
  { destruct (clicked inp) as [[| |]|]; try by apply hoare_ret.
    eapply hoare_bind; [|intros qs; cbv beta].
    { apply (hoare_call_fetch_questions _ _ _ _ _ (fun _ => world_keys_valid)).
      intros w Hw. by destruct (cache_data_fetch_questions _ _ _ _ _) as [c [v|e]]. }
    apply (hoare_bind _ _ _ (fun _ _ => True)); [by apply hoare_modify_session|intros ?].
    apply (hoare_bind _ _ _ (fun _ _ => True)); [by apply hoare_modify_session|intros ?].
    apply (hoare_bind _ _ _ (fun _ => world_keys_valid)); [|intros ?; by apply hoare_rerun].
    apply hoare_modify_session. intros w _. apply keys_valid_no_selection. }
  step_attribute generated. apply (hoare_pre _ world_keys_valid); [by intros w [H _]|].
  destruct generated; [|by apply hoare_ret].
  step_emit. step_emit.
  step_attribute qs.
  eapply hoare_bind; [apply hoare_lift; by intros e w [H _]|intros items; cbv beta].
  apply hoare_pure; intros Hitems. apply py_iter_len in Hitems.
  assert (forall w, drawing qs (length items) w -> world_keys_valid w) as Hdrawn.
  { intros w [Hqs Hsel] d Hd i Hi. specialize (Hsel d Hd i Hi).
    unfold question_count. rewrite Hqs, Hitems. lia. }
  apply (hoare_bind _ _ _ (fun _ => world_keys_valid)); [|intros ?].
  { apply (hoare_pre _ (drawing qs (length items))).
    { intros w [Hkeys Hqs]. split; [done|].
      intros d Hd i Hi. specialize (Hkeys d Hd i Hi).
      unfold question_count in Hkeys. rewrite Hqs, Hitems in Hkeys. lia. }
    eapply hoare_post; [intros ? w; apply Hdrawn|].
    apply (form_loop_spec inp (drawing qs (length items)) (fun _ => world_keys_valid)).
    - intros w d j k Hj [Hqs Hsel] Hd. split; [done|]. simpl.
      intros d' [= <-] i Hi. rewrite dom_insert_L in Hi.
      apply elem_of_union in Hi as [Hi|Hi]; [|by eapply Hsel].
      apply elem_of_singleton in Hi. lia.
    - intros e w Hw _. by apply Hdrawn. }
  step_emit.
  apply (hoare_bind _ _ _ (fun _ => world_keys_valid)); [|intros ?].
  { destruct (clicked inp) as [[| |]|]; try by apply hoare_ret.
    apply show_results_world. }
  step_emit.
  destruct (clicked inp) as [[| |]|]; try by apply hoare_ret.
  apply (hoare_bind _ _ _ (fun _ => world_keys_valid)); [|intros ?].
  { apply hoare_modify_session. by intros w H. }
  apply (hoare_bind _ _ _ (fun _ => world_keys_valid)); [|intros ?; by apply hoare_rerun].
  apply hoare_modify_session. intros w _. apply keys_valid_no_selection.
Qed.

(** A run whose model gives checked questions keeps the stored questions,
    and the cache, checked. *)
Lemma main_checked inp :
  model_checked inp ->
  hoare world_checked (main format_value str_upper inp)
        (fun _ => world_checked) (fun _ => world_checked).
Proof.
  intros Hmodel. unfold main.
  eapply hoare_bind; [apply hoare_get_session|intros s; cbv beta].
  apply (hoare_bind _ _ _ (fun _ => world_checked)); [|intros ?].
  { destruct (quiz_generated s); [by apply hoare_ret; intros w [H _]|].
    apply hoare_modify_session. by intros w [H _]. }
  eapply hoare_bind; [apply hoare_get_session|intros s'; cbv beta].
  apply (hoare_bind _ _ _ (fun _ => world_checked)); [|intros ?].
  { destruct (selected_options s'); [by apply hoare_ret; intros w [H _]|].
    apply hoare_modify_session. by intros w [H _]. }
  step_emit.
  apply (hoare_bind _ _ _ (fun _ => world_checked)); [|intros ?].
  { destruct (clicked inp) as [[| |]|]; try by apply hoare_ret.
    eapply hoare_bind; [|intros qs; cbv beta].
    { apply (hoare_call_fetch_questions _ _ _ _ _
               (fun v w => world_checked w /\ checked v)).
      intros w [Hqs Hcache]. unfold cache_data_fetch_questions.
      destruct (cache w !! _) as [v|] eqn:Hhit.
      { split; [by split|]. by eapply Hcache. }
      destruct (fetch_questions _ _ _ _) as [v|e] eqn:Hfetch; [|by split].
      pose proof (Hmodel _ _ _ _ Hfetch) as Hv.
      repeat split; [done| |done]. simpl. intros k v' Hk.
      destruct (decide ((text_content inp, level_label (quiz_level inp), num_questions inp) = k))
        as [<-|Hne].
      - rewrite lookup_insert_eq in Hk. by simplify_eq.
      - rewrite lookup_insert_ne in Hk by done. by eapply Hcache. }
    apply (hoare_bind _ _ _ (fun _ => world_checked)); [|intros ?].
    { apply hoare_modify_session. intros w [[Hqs Hcache] Hv]. split; [|done].
      simpl. by intros ? [= <-]. }
    apply (hoare_bind _ _ _ (fun _ => world_checked)); [|intros ?].
    { by apply hoare_modify_session. }
    apply (hoare_bind _ _ _ (fun _ => world_checked)); [|intros ?; by apply hoare_rerun].
    by apply hoare_modify_session. }
  step_attribute generated. apply (hoare_pre _ world_checked); [by intros w [H _]|].
  destruct generated; [|by apply hoare_ret].
  step_emit. step_emit.
  step_attribute qs. apply (hoare_pre _ world_checked); [by intros w [H _]|].
  step_lift items Hitems.
  eapply hoare_bind; [by apply form_loop_spec|intros ?; cbv beta].
  step_emit.
  apply (hoare_bind _ _ _ (fun _ => world_checked)); [|intros ?].
  { destruct (clicked inp) as [[| |]|]; try by apply hoare_ret.
    apply show_results_world. }
  step_emit.
  destruct (clicked inp) as [[| |]|]; try by apply hoare_ret.
  apply (hoare_bind _ _ _ (fun _ => world_checked)); [|intros ?].
  { by apply hoare_modify_session. }
  apply (hoare_bind _ _ _ (fun _ => world_checked)); [|intros ?; by apply hoare_rerun].
  by apply hoare_modify_session.
Qed.

(** What holds of every way a run can end holds after the run. *)
Lemma hoare_step (P Q : World -> Prop) inp w :
  hoare P (main format_value str_upper inp) (fun _ => Q) (fun _ => Q) ->
  P w -> Q (step format_value str_upper inp w).
Proof.
  intros Hmain Hw. unfold step, run.
  specialize (Hmain {| world := w; page := [] |} Hw).
  by destruct (main _ _ _ _) as [r' [[]|e|]].
Qed.

(** The worlds a session can be in when its inputs are among [allowed]: the
    one it starts in, and what a run of the script makes of one of them. *)
Inductive reachable (allowed : Inputs -> Prop) : World -> Prop :=
| reachable_new : reachable allowed new_world
| reachable_step inp w :
    allowed inp -> reachable allowed w ->
    reachable allowed (step format_value str_upper inp w).

(** C3, as amended: in every world a session can reach, the keys of the
    selections are indices of the stored questions; and the [correct] of
    every stored question is a key of its [options] when every answer of the
    model was so, the script storing the questions as they come. *)
Theorem session_invariant (allowed : Inputs -> Prop) (w : World) :
  reachable allowed w ->
  keys_valid (session w) /\
  ((forall inp, allowed inp -> model_checked inp) ->
   forall qs, questions (session w) = Some qs -> checked qs).
Proof.
  intros Hreach. split.
  - induction Hreach as [|inp w _ _ IH]; [by intros d [=]|].
    apply (hoare_step world_keys_valid world_keys_valid); [apply main_keys_valid|exact IH].
  - intros Hmodel.
    enough (world_checked w) as [H _] by done.
    induction Hreach as [|inp w Hinp _ IH]; [by split|].
    apply (hoare_step world_checked world_checked); [by apply main_checked, Hmodel|exact IH].
Qed.

(** *** Generation *)

(** C10: a click on the generate button for which [fetch_questions] returns
    ends the run, from any world, with the returned questions stored,
    [quiz_generated] true and no selection; the session state has no other
    attribute, and nothing but the button was drawn. *)
Theorem generate_replaces_session inp w c qs :
  clicked inp = Some Generate ->
  cache_data_fetch_questions (cache w) (generate_content inp) (text_content inp)
    (level_label (quiz_level inp)) (num_questions inp) = (c, Ok qs) ->
  run format_value str_upper inp w =
    ({| session := {| questions := Some qs; quiz_generated := Some true;
                      selected_options := Some ∅ |};
        cache := c |},
     [st_button "🚀 Generate Quiz"], Reruns).
Proof.
  intros Hclick Hfetch. destruct w as [[q g sel] ca]. simpl in Hfetch.
  unfold run, main, mbind, M_bind, call_fetch_questions. simpl.
  destruct g, sel; simpl; rewrite Hclick; simpl; rewrite Hfetch; reflexivity.
Qed.

(** *** Submitting an empty quiz *)

Lemma code_points_from_cons s : forall cur, code_points_from cur s <> [].
Proof.
  induction s as [|c rest IH]; intros cur; simpl; [done|].
  destruct (is_continuation c); [apply IH|done].
Qed.

Lemma code_points_nil s : code_points s = [] -> s = EmptyString.
Proof.
  destruct s as [|c rest]; [done|]. simpl. intros H.
  by apply code_points_from_cons in H.
Qed.

(** The values whose length is zero. *)
Lemma py_len_zero qs :
  py_len qs = Ok 0 -> qs = JStr EmptyString \/ qs = JArr [] \/ qs = JObj [].
Proof.
  destruct qs as [| | | |s|items|d]; simpl; try done; intros [= H].
  - left. f_equal. apply code_points_nil. by destruct (code_points s).
  - right; left. by destruct items.
  - right; right. by destruct d.
Qed.

(** C4: the form submitted while the stored questions are empty: the run
    ends in [ZeroDivisionError], raised by the division of line 162. *)
Theorem submit_empty_divides_by_zero inp w qs :
  clicked inp = Some Submit ->
  quiz_generated (session w) = Some true ->
  questions (session w) = Some qs ->
  py_len qs = Ok 0 ->
  (run format_value str_upper inp w).2 = Raises ZeroDivisionError.
Proof.
  intros Hclick Hgen Hqs Hlen. destruct w as [[q g sel] ca]. simpl in *. subst.
  unfold run, main. rewrite Hclick.
  destruct (py_len_zero _ Hlen) as [->|[->| ->]]; by destruct sel.
Qed.

(** *** Reset *)

(** No quiz is shown: the state the spec calls Idle. *)
Definition idle (s : SessionState) : Prop := quiz_generated s = Some false.

(** The world after a reset of [w]. *)
Definition reset_world (w : World) : World :=
  on_session (fun s => with_selected_options ∅ (with_quiz_generated false s)) w.

(** A run started by the reset button, over questions the form can draw,
    stops at the [st.rerun()] of line 183 with the world reset. *)
Lemma main_reset inp w qs items :
  clicked inp = Some Reset ->
  quiz_generated (session w) = Some true ->
  questions (session w) = Some qs ->
  py_iter qs = Ok items -> Forall draws items ->
  hoare (fun w0 => w0 = w) (main format_value str_upper inp)
        (fun _ _ => False) (fun s w' => s = Rerun /\ w' = reset_world w).
Proof.
  intros Hclick Hgen Hqs Hiter Hdraws.
  set (shown := fun w0 : World =>
         cache w0 = cache w /\ questions (session w0) = Some qs /\
         quiz_generated (session w0) = Some true /\
         is_Some (selected_options (session w0))).
  unfold main. rewrite Hclick.
  eapply hoare_bind; [apply hoare_get_session|intros s; cbv beta].
  apply (hoare_bind _ _ _ (fun _ w0 => w0 = w)); [|intros ?].
  { apply (hoare_assert (s = session w)); [by intros ? [-> ->]|intros ->].
    rewrite Hgen. apply hoare_ret. by intros ? [-> _]. }
  eapply hoare_bind; [apply hoare_get_session|intros s'; cbv beta].
  apply (hoare_bind _ _ _ (fun _ => shown)); [|intros ?].
  { apply (hoare_assert (s' = session w)); [by intros ? [-> ->]|intros ->].
    destruct (selected_options (session w)) eqn:Hsel.
    - apply hoare_ret. intros ? [-> _]. unfold shown. rewrite Hsel. eauto.
    - apply hoare_modify_session. intros ? [-> _]. unfold shown. simpl. eauto. }
  step_emit.
  apply (hoare_bind _ _ _ (fun _ => shown)); [by apply hoare_ret|intros ?].
  step_attribute generated.
  { intros w0 (_ & _ & Hg & _) Hnone. congruence. }
  apply (hoare_assert (generated = true)).
  { intros w0 [(_ & _ & Hg & _) Hg']. congruence. }
  intros ->. apply (hoare_pre _ shown); [by intros w0 [H _]|].
  step_emit. step_emit.
  step_attribute qs'.
  { intros w0 (_ & Hq & _) Hnone. congruence. }
  apply (hoare_assert (qs' = qs)).
  { intros w0 [(_ & Hq & _) Hq']. congruence. }
  intros ->. apply (hoare_pre _ shown); [by intros w0 [H _]|].
  rewrite Hiter.
  eapply hoare_bind; [by apply hoare_lift|intros items'; cbv beta].
  apply hoare_pure. intros [= <-].
  eapply hoare_bind; [|intros ?; cbv beta].
  { apply (form_loop_spec inp shown).
    - intros w0 d j k _ (Hc & Hq & Hg & Hs) Hd. unfold shown. simpl. eauto.
    - intros e w0 (_ & _ & _ & Hs) Hnot. by destruct Hnot. }
  step_emit.
  apply (hoare_bind _ _ _ (fun _ => shown)); [by apply hoare_ret|intros ?].
  step_emit.
  apply (hoare_bind _ _ _ (fun _ w0 =>
           cache w0 = cache w /\ questions (session w0) = Some qs /\
           quiz_generated (session w0) = Some false)); [|intros ?].
  { apply hoare_modify_session. intros w0 (Hc & Hq & _). by simpl. }
  apply (hoare_bind _ _ _ (fun _ w0 => w0 = reset_world w)); [|intros ?; by apply hoare_rerun].
  apply hoare_modify_session. intros w0 (Hc & Hq & Hg).
  unfold reset_world, on_session, with_selected_options, with_quiz_generated. simpl.
  by rewrite Hc, Hq, Hg, Hqs.
Qed.

(** C1, as amended: a reset of a quiz that is shown (its form drawn) ends
    the run with [quiz_generated] false and the selections empty, and leaves
    the questions stored; a generation that follows and returns gives the
    session a generation from a new session gives. *)
Theorem reset_returns_to_idle inp w qs items :
  clicked inp = Some Reset ->
  quiz_generated (session w) = Some true ->
  questions (session w) = Some qs ->
  py_iter qs = Ok items -> Forall draws items ->
  let w' := step format_value str_upper inp w in
  (run format_value str_upper inp w).2 = Reruns /\
  idle (session w') /\
  selected_options (session w') = Some ∅ /\
  questions (session w') = Some qs /\
  cache w' = cache w /\
  forall again c fetched,
    clicked again = Some Generate ->
    cache_data_fetch_questions (cache w) (generate_content again) (text_content again)
      (level_label (quiz_level again)) (num_questions again) = (c, Ok fetched) ->
    step format_value str_upper again w' =
      step format_value str_upper again {| session := new_session; cache := cache w |} /\
    session (step format_value str_upper again w') =
      {| questions := Some fetched; quiz_generated := Some true;
         selected_options := Some ∅ |}.
Proof.
  intros Hclick Hgen Hqs Hiter Hdraws w'.
  pose proof (main_reset inp w qs items Hclick Hgen Hqs Hiter Hdraws
                {| world := w; page := [] |} eq_refl) as Hmain.
  assert ((run format_value str_upper inp w).2 = Reruns /\ w' = reset_world w)
    as [Hends Hw'].
  { unfold w', step, run.
    destruct (main _ _ _ _) as [r' [[]|e|]]; simpl in *;
      [done|by destruct Hmain|by destruct Hmain]. }
  split; [done|]. rewrite Hw'. repeat split; try done.
  - unfold step.
    by rewrite (generate_replaces_session again _ c fetched),
               (generate_replaces_session again _ c fetched).
  - unfold step. by rewrite (generate_replaces_session again _ c fetched).
Qed.

(** *** Scoring *)

Definition no_answer_line : string := "❌ You didn't select an answer.".

(** What the body of the scoring loop does when it completes: the question
    has a string for [correct]; the marks go up by one exactly when the
    selection is that string; the page gets the prompt, a line for the
    selection and the correct answer.  The line for the selection is the
    no-answer line when there is no selection, and a line of its own when
    the selected key is not empty. *)
Lemma score_question_returns (i : nat) question marks r r' marks' d :
  selected_options (session (world r)) = Some d ->
  score_question format_value str_upper i question marks r = (r', Returns marks') ->
  exists correct mcq line correct_line,
    py_getitem question "correct" = Ok (JStr correct) /\
    marks' = (if decide (d !! i = Some correct) then marks + 1 else marks) /\
    world r' = world r /\
    page r' = page r ++ [st_markdown mcq; st_write line; st_write correct_line] /\
    match d !! i with
    | None => line = no_answer_line
    | Some EmptyString => line = no_answer_line
    | Some key =>
        exists text,
          line = "🟢 You selected: **" +:+ str_upper key +:+ " - " +:+ text +:+ "**"
    end.
Proof.
  intros Hd H. unfold score_question in H.
  apply bind_returns in H as (? & mcq & [Hmcq ->]%lift_returns & H).
  apply bind_returns in H as (? & [] & ->%emit_returns & H).
  apply bind_returns in H as (? & d' & [Hd' ->]%attribute_returns & H).
  simpl in Hd'. assert (d' = d) as -> by congruence.
  apply bind_returns in H as (? & correct_letter & [Hcorrect ->]%lift_returns & H).
  apply bind_returns in H as (r1 & [] & Hselected & H).
  apply bind_returns in H as (r2 & [] & Hshown & [-> ->]%mret_returns).
  destruct correct_letter as [| | | |correct| |]; try done.
  apply bind_returns in Hshown as (? & options & [Hoptions ->]%lift_returns & Hshown).
  apply bind_returns in Hshown as (? & text & [Htext ->]%lift_returns & ->%emit_returns).
  exists correct. simpl.
  assert (forall line,
            r1 = {| world := world r;
                    page := (page r ++ [st_markdown ("**Q" +:+ str_int (Z.of_nat i + 1) +:+ ". "
                                                     +:+ format_value mcq +:+ "**")])
                            ++ [st_write line] |} ->
            exists mcq0 correct_line,
              Ok (JStr correct) = Ok (JStr correct) /\
              (if py_eq (d !! i) (JStr correct) then marks + 1 else marks) =
                (if decide (d !! i = Some correct) then marks + 1 else marks) /\
              world r1 = world r /\
              page r1 ++ [st_write ("✅ Correct answer: **" +:+ str_upper correct +:+ " - "
                                    +:+ format_value text +:+ "**")] =
                page r ++ [st_markdown mcq0; st_write line; st_write correct_line]) as Hline.
  { intros line ->. eexists _, _. split; [done|]. split; [|split; [done|]].
    - destruct (d !! i) as [key|]; [|done]. simpl.
      destruct (String.eqb_spec key correct) as [->|Hne]; case_decide; congruence.
    - simpl. by rewrite <- !app_assoc. }
  destruct (d !! i) as [[|c key]|] eqn:Hi; simpl in Hselected.
  - apply emit_returns in Hselected.
    destruct (Hline _ Hselected) as (mcq0 & correct_line & ? & ? & ? & ?).
    by exists mcq0, no_answer_line, correct_line.
  - apply bind_returns in Hselected as (? & options' & [_ ->]%lift_returns & Hselected).
    apply bind_returns in Hselected as (? & text' & [_ ->]%lift_returns & Hselected).
    apply emit_returns in Hselected.
    destruct (Hline _ Hselected) as (mcq0 & correct_line & ? & ? & ? & ?).
    eexists mcq0, _, correct_line. repeat split; [done..|]. by eexists.
  - apply emit_returns in Hselected.
    destruct (Hline _ Hselected) as (mcq0 & correct_line & ? & ? & ? & ?).
    by exists mcq0, no_answer_line, correct_line.
Qed.



(** The marks of a question: one when the selection is its [correct]. *)
Definition question_marks (d : gmap nat string) (i : nat) (question : json) : Z :=
  match py_getitem question "correct" with
  | Ok (JStr correct) => if decide (d !! i = Some correct) then 1 else 0
  | _ => 0
  end.

Fixpoint total_marks (d : gmap nat string) (i : nat) (items : list json) : Z :=
  match items with
  | [] => 0
  | question :: rest => question_marks d i question + total_marks d (S i) rest
  end.

(** The scoring loop, when it completes, has added the marks of the
    questions: the number of those whose selection is their [correct]. *)
Lemma score_loop_returns items : forall (i : nat) marks r r' marks' d,
  selected_options (session (world r)) = Some d ->
  score_loop format_value str_upper i items marks r = (r', Returns marks') ->
  marks' = marks + total_marks d i items /\ world r' = world r.
Proof.
  induction items as [|question rest IH]; intros i marks r r' marks' d Hd; simpl.
  - intros [-> ->]%mret_returns. split; [lia|done].
  - intros (r1 & marks1 & Hq & Hrest)%bind_returns.
    destruct (score_question_returns _ _ _ _ _ _ _ Hd Hq)
      as (correct & _ & _ & _ & Hcorrect & -> & Hw & _).
    rewrite <- Hw in Hd. destruct (IH _ _ _ _ _ _ Hd Hrest) as [-> ->].
    split; [|done]. unfold question_marks. rewrite Hcorrect.
    case_decide; lia.
Qed.

End Session.

(** ** The feedback *)

Lemma compare_finite (m m' : positive) (e e' : Z) :
  SFcompare (S754_finite false m e) (S754_finite false m' e') =
    Some match e ?= e' with
         | Lt => Lt
         | Gt => Gt
         | Eq => (m ?= m')%positive
         end.
Proof. reflexivity. Qed.

(** Below 100 is not 100; below 80 is neither 100 nor 80 or more; below 50
    is none of the three. *)
Lemma below_100 (x : float) :
  PrimFloat.ltb x 100 = true -> PrimFloat.eqb x 100 = false.
Proof.
  rewrite FloatAxioms.ltb_spec, FloatAxioms.eqb_spec. unfold SFltb, SFeqb.
  by destruct (SFcompare _ _) as [[]|].
Qed.

Lemma below_80 (x : float) :
  PrimFloat.ltb x 80 = true ->
  PrimFloat.eqb x 100 = false /\ PrimFloat.leb 80 x = false.
Proof.
  rewrite FloatAxioms.ltb_spec, FloatAxioms.eqb_spec, FloatAxioms.leb_spec.
  unfold SFltb, SFeqb, SFleb.
  change (Prim2SF 100) with (S754_finite false 7036874417766400 (-46)).
  change (Prim2SF 80) with (S754_finite false 5629499534213120 (-46)).
  destruct (Prim2SF x) as [[]|[]| |[] m e]; [done..|].
  rewrite !compare_finite, (Z.compare_antisym e (-46)),
    (Pos.compare_antisym m 5629499534213120).
  destruct (Z.compare_spec e (-46)) as [->| |]; simpl; [|done..].
  destruct (Pos.compare_spec m 5629499534213120) as [->| |]; simpl; [done| |done].
  intros _. split; [|done].
  destruct (Pos.compare_spec m 7036874417766400) as [->| |]; [lia|done..].
Qed.

Lemma below_50 (x : float) :
  PrimFloat.ltb x 50 = true ->
  PrimFloat.eqb x 100 = false /\ PrimFloat.leb 80 x = false /\ PrimFloat.leb 50 x = false.
Proof.
  rewrite FloatAxioms.ltb_spec, FloatAxioms.eqb_spec, !FloatAxioms.leb_spec.
  unfold SFltb, SFeqb, SFleb.
  change (Prim2SF 100) with (S754_finite false 7036874417766400 (-46)).
  change (Prim2SF 80) with (S754_finite false 5629499534213120 (-46)).
  change (Prim2SF 50) with (S754_finite false 7036874417766400 (-47)).
  destruct (Prim2SF x) as [[]|[]| |[] m e]; [done..|].
  rewrite !compare_finite, (Z.compare_antisym e (-46)), (Z.compare_antisym e (-47)),
    (Pos.compare_antisym m 7036874417766400).
  destruct (Z.compare_spec e (-47)) as [->| |]; simpl.
  - destruct (Pos.compare_spec m 7036874417766400) as [->| |]; simpl; done.
  - destruct (Z.compare_spec e (-46)) as [->| |]; simpl; [lia|done|lia].
  - done.
Qed.

(** C6: the tier of the feedback for a score percentage: the top one at
    100, the high one from 80 up to 100, the middle one from 50 up to 80,
    the low one below 50. *)
Theorem feedback_tiers (score_percentage : float) :
  (PrimFloat.eqb score_percentage 100 = true -> feedback score_percentage = perfect_score) /\
  (PrimFloat.leb 80 score_percentage = true -> PrimFloat.ltb score_percentage 100 = true ->
     feedback score_percentage = great_job) /\
  (PrimFloat.leb 50 score_percentage = true -> PrimFloat.ltb score_percentage 80 = true ->
     feedback score_percentage = good_effort) /\
  (PrimFloat.ltb score_percentage 50 = true -> feedback score_percentage = keep_practising).
Proof.
  unfold feedback. repeat split.
  - by intros ->.
  - intros -> Hlt%below_100. by rewrite Hlt.
  - intros -> [-> ->]%below_80. done.
  - intros (-> & -> & ->)%below_50. done.
Qed.

(** The tiers of some scores: all correct, four of five, one of two, two of
    five. *)
Definition percentage (marks count : Z) : float :=
  PrimFloat.mul (PrimFloat.div (float_of_int marks) (float_of_int count)) 100.

Example feedback_samples :
  feedback (percentage 3 3) = perfect_score /\
  feedback (percentage 4 5) = great_job /\
  feedback (percentage 1 2) = good_effort /\
  feedback (percentage 2 5) = keep_practising /\
  format_2f (percentage 3 3) = "100.00" /\
  format_2f (percentage 2 5) = "40.00".
Proof. vm_compute. by repeat split. Qed.

(** * Worked sessions *)

(** A model that answers with a quiz of two questions, and a session that
    generated it. *)
Definition question_one : json :=
  JObj [("mcq", JStr "One?"); ("options", JObj [("a", JStr "x"); ("b", JStr "y")]);
        ("correct", JStr "b")].

Definition question_two : json :=
  JObj [("mcq", JStr "Two?"); ("options", JObj [("a", JStr "u"); ("b", JStr "v")]);
        ("correct", JStr "a")].

Definition generated : World :=
  step_plain (click Generate (answering two_questions quiet)) new_world.

Example generated_session :
  session generated =
    {| questions := Some (JArr [question_one; question_two]);
       quiz_generated := Some true; selected_options := Some ∅ |}.
Proof. vm_compute. reflexivity. Qed.

(** The second option of the first question is chosen. *)
Definition first_answered : nat -> option nat :=
  fun i => match i with O => Some 1%nat | _ => None end.

Definition answered : World := step_plain (choose first_answered quiet) generated.

Example answered_selection :
  selected_options (session answered) = Some {[ 0%nat := "b" ]}.
Proof. vm_compute. reflexivity. Qed.

(** The page of a submission with the first question answered, rightly,
    and the second not. *)
Example submitted_page :
  (run_plain (click Submit quiet) answered).1.2 =
    [st_button "🚀 Generate Quiz"; st_divider; st_write "## 🎯 Your Quiz";
     st_markdown "### ❓ 1. One?";
     st_radio "Select an answer:" ["a: x"; "b: y"] "question_0"
       "Select the correct answer for question 1";
     st_markdown "### ❓ 2. Two?";
     st_radio "Select an answer:" ["a: u"; "b: v"] "question_1"
       "Select the correct answer for question 2";
     st_form_submit_button "✅ Submit Answers";
     st_success "✅ Quiz Submitted Successfully!";
     st_write "### 📊 Quiz Results";
     st_markdown "**Q1. One?**";
     st_write "🟢 You selected: **B - y**";
     st_write "✅ Correct answer: **B - y**";
     st_markdown "**Q2. Two?**";
     st_write no_answer_line;
     st_write "✅ Correct answer: **A - u**";
     st_markdown "### 🎉 You scored **1 / 2** (50.00%)";
     st_progress 0.5;
     st_subheader "📢 Performance Feedback";
     good_effort;
     st_button "🔄 Reset Quiz"].
Proof. vm_compute. reflexivity. Qed.

(** ** Reset (C1) *)

(** The claim that a reset clears the questions fails: after the reset of a
    generated quiz the session is idle and its questions are the two of the
    quiz, neither absent nor an empty list. *)
Lemma reset_keeps_questions :
  idle (session (step_plain (click Reset quiet) generated)) /\
  questions (session (step_plain (click Reset quiet) generated)) =
    Some (JArr [question_one; question_two]) /\
  questions (session (step_plain (click Reset quiet) generated)) <> None /\
  questions (session (step_plain (click Reset quiet) generated)) <> Some (JArr []).
Proof. vm_compute. by repeat split. Qed.

Lemma two_questions_draw : Forall draws [question_one; question_two].
Proof. repeat constructor; by eexists _, _, _. Defined.

Lemma reset_returns_to_idle_witness :
  clicked (click Reset quiet) = Some Reset /\
  quiz_generated (session generated) = Some true /\
  questions (session generated) = Some (JArr [question_one; question_two]) /\
  (let w' := step_plain (click Reset quiet) generated in
   (run_plain (click Reset quiet) generated).2 = Reruns /\
   idle (session w') /\
   selected_options (session w') = Some ∅ /\
   questions (session w') = Some (JArr [question_one; question_two]) /\
   cache w' = cache generated /\
   forall again c fetched,
     clicked again = Some Generate ->
     cache_data_fetch_questions (cache generated) (generate_content again)
       (text_content again) (level_label (quiz_level again)) (num_questions again)
       = (c, Ok fetched) ->
     step_plain again w' = step_plain again {| session := new_session; cache := cache generated |} /\
     session (step_plain again w') =
       {| questions := Some fetched; quiz_generated := Some true;
          selected_options := Some ∅ |}).
Proof.
  split; [reflexivity|]. split; [vm_compute; reflexivity|].
  split; [vm_compute; reflexivity|].
  apply (reset_returns_to_idle str_plain upper_ascii (click Reset quiet) generated
           (JArr [question_one; question_two]) [question_one; question_two]).
  - reflexivity.
  - vm_compute; reflexivity.
  - vm_compute; reflexivity.
  - reflexivity.
  - exact two_questions_draw.
Defined.

(** ** Responses that are not the expected document (C2, C7, C9) *)




(** A response with the questions under another key. *)
Definition misnamed : string := dq "{'questions': []}".

Lemma fetch_questions_missing_key_witness :
  json_loads misnamed = Ok (JObj [("questions", JArr [])]) /\
  fetch_questions (fun _ => Ok misnamed) "some text" "Easy" 2 = Ok (JArr []) /\
  forall other_model other_text,
    other_model (PROMPT_TEMPLATE "some text" "Easy" 2) = Ok other_text ->
    json_loads other_text = Raise JSONDecodeError ->
    fetch_questions other_model "some text" "Easy" 2 =
    fetch_questions (fun _ => Ok misnamed) "some text" "Easy" 2.
Proof.
  split; [vm_compute; reflexivity|].
  apply (fetch_questions_missing_key (fun _ => Ok misnamed) "some text" "Easy" 2
           misnamed eq_refl [("questions", JArr [])]).
  - vm_compute; reflexivity.
  - reflexivity.
Defined.

(** ** The invariant (C3) *)

(** A model whose question has a [correct] that is no key of its options. *)
Definition unchecked_quiz : string :=
  dq "{'mcqs': [{'mcq': 'Q?', 'options': {'a': 'x', 'b': 'y'}, 'correct': 'z'}]}".

Definition unchecked : World :=
  step_plain (click Generate (answering unchecked_quiz quiet)) new_world.

(** The claim that the [correct] of every stored question is a key of its
    options fails: the session reaches a world that stores such a question,
    and the submission of its form ends in [KeyError], raised by the lookup
    of line 156. *)
Lemma stored_question_unchecked :
  reachable str_plain upper_ascii (fun _ => True) unchecked /\
  questions (session unchecked) =
    Some (JArr [JObj [("mcq", JStr "Q?");
                      ("options", JObj [("a", JStr "x"); ("b", JStr "y")]);
                      ("correct", JStr "z")]]) /\
  py_getitem (JObj [("a", JStr "x"); ("b", JStr "y")]) "z" = Raise KeyError /\
  (run_plain (click Submit quiet) unchecked).2 = Raises KeyError.
Proof.
  split; [apply reachable_step; [exact I|apply reachable_new]|].
  vm_compute. by repeat split.
Qed.

(** The model of the worked session gives checked questions, and so does
    one that gives nothing. *)
Lemma two_questions_decoded :
  json_loads two_questions = Ok (JObj [("mcqs", JArr [question_one; question_two])]).
Proof. vm_compute. reflexivity. Defined.

Lemma two_questions_checked : checked (JArr [question_one; question_two]).
Proof. intros items [= <-]. repeat constructor; by eexists _, _, _. Defined.

Lemma answering_two_questions_checked inp :
  model_checked (answering two_questions inp).
Proof.
  intros text level n v. unfold fetch_questions, res_bind.
  change (generate_content (answering two_questions inp) _) with (Ok two_questions).
  cbv beta iota. rewrite two_questions_decoded.
  intros [= <-]. exact two_questions_checked.
Defined.

Lemma quiet_checked : model_checked quiet.
Proof. intros text level n v. unfold fetch_questions. simpl. discriminate. Defined.

Lemma answered_reachable : reachable str_plain upper_ascii model_checked answered.
Proof.
  apply reachable_step; [exact quiet_checked|].
  apply reachable_step; [exact (answering_two_questions_checked quiet)|].
  apply reachable_new.
Defined.

Lemma session_invariant_witness :
  reachable str_plain upper_ascii model_checked answered /\
  selected_options (session answered) = Some {[ 0%nat := "b" ]} /\
  questions (session answered) = Some (JArr [question_one; question_two]) /\
  keys_valid (session answered) /\
  checked (JArr [question_one; question_two]).
Proof.
  split; [exact answered_reachable|]. split; [vm_compute; reflexivity|].
  assert (questions (session answered) = Some (JArr [question_one; question_two])) as Hqs
    by (vm_compute; reflexivity).
  split; [exact Hqs|].
  destruct (session_invariant str_plain upper_ascii model_checked answered
              answered_reachable) as [Hkeys Hchecked].
  split; [exact Hkeys|]. exact (Hchecked (fun inp H => H) _ Hqs).
Defined.

(** ** An empty quiz (C4) *)

(** A model that does not answer in JSON: the quiz generated is empty. *)
Definition empty_quiz : World :=
  step_plain (click Generate (answering "Sorry, I cannot write a quiz." quiet)) new_world.

Lemma submit_empty_divides_by_zero_witness :
  quiz_generated (session empty_quiz) = Some true /\
  questions (session empty_quiz) = Some (JArr []) /\
  (run_plain (click Submit quiet) empty_quiz).2 = Raises ZeroDivisionError.
Proof.
  split; [vm_compute; reflexivity|]. split; [vm_compute; reflexivity|].
  apply (submit_empty_divides_by_zero str_plain upper_ascii (click Submit quiet)
           empty_quiz (JArr [])).
  - reflexivity.
  - vm_compute; reflexivity.
  - vm_compute; reflexivity.
  - reflexivity.
Defined.

(** ** Scoring (C5) *)



Definition first_option : nat -> option nat := fun _ => Some 0%nat.




(** ** Generation (C10) *)

Lemma generate_replaces_session_witness :
  clicked (click Generate (answering two_questions quiet)) = Some Generate /\
  run_plain (click Generate (answering two_questions quiet)) answered =
    ({| session := {| questions := Some (JArr [question_one; question_two]);
                      quiz_generated := Some true; selected_options := Some ∅ |};
        cache := cache answered |},
     [st_button "🚀 Generate Quiz"], Reruns).
Proof.
  split; [reflexivity|].
  apply (generate_replaces_session str_plain upper_ascii
           (click Generate (answering two_questions quiet)) answered).
  - reflexivity.
  - vm_compute; reflexivity.
Defined.

(** * More of the script

    What the cache does over the runs of a session, what a run can and
    cannot change, how the form and the scoring fit together, and when a
    session raises or cannot. *)

(** ** The cache of [fetch_questions] *)

(** A call that returned is answered from the cache ever after. *)
Lemma cache_data_hit (c c' : gmap (string * string * Z) json)
    (gen : string -> res string) (text level : string) (n : Z) (v : json) :
  cache_data_fetch_questions c gen text level n = (c', Ok v) ->
  forall gen', cache_data_fetch_questions c' gen' text level n = (c', Ok v).
Proof.
  unfold cache_data_fetch_questions. intros H gen'.
  destruct (c !! (text, level, n)) as [v0|] eqn:Hhit.
  - simplify_eq. by rewrite Hhit.
  - destruct (fetch_questions gen text level n) as [v0|e]; [|done].
    simplify_eq. by rewrite lookup_insert_eq.
Qed.

(** X2: the empty list that [fetch_questions] returns for a response that
    is not JSON is cached like any result: the next calls with the same
    text, level and count give the empty list again without asking the
    model, whatever it would answer. *)
Theorem undecodable_response_is_cached (c : gmap (string * string * Z) json)
    (gen : string -> res string) (text level : string) (n : Z) (response : string) :
  c !! (text, level, n) = None ->
  gen (PROMPT_TEMPLATE text level n) = Ok response ->
  json_loads response = Raise JSONDecodeError ->
  exists c',
    cache_data_fetch_questions c gen text level n = (c', Ok (JArr [])) /\
    forall gen', cache_data_fetch_questions c' gen' text level n = (c', Ok (JArr [])).
Proof.
  intros Hmiss Hgen Hjson.
  exists (<[(text, level, n) := JArr []]> c).
  unfold cache_data_fetch_questions, fetch_questions.
  rewrite Hmiss, Hgen. simpl. rewrite Hjson. split; [done|].
  intros gen'. by rewrite lookup_insert_eq.
Qed.

Lemma undecodable_response_is_cached_witness :
  exists c',
    cache_data_fetch_questions ∅ (fun _ => Ok "Sorry, I cannot write a quiz.")
      "some text" "Easy" 5 = (c', Ok (JArr [])) /\
    forall gen', cache_data_fetch_questions c' gen' "some text" "Easy" 5 = (c', Ok (JArr [])).
Proof.
  apply (undecodable_response_is_cached ∅ (fun _ => Ok "Sorry, I cannot write a quiz.")
           "some text" "Easy" 5 "Sorry, I cannot write a quiz.").
  - reflexivity.
  - reflexivity.
  - vm_compute; reflexivity.
Defined.

(** ** Runs started by the generate button *)

(** Lines 101 to 104: the two attributes the script sets when they are not
    there. *)
Definition initialise (s : SessionState) : SessionState :=
  {| questions := questions s;
     quiz_generated := Some (default false (quiz_generated s));
     selected_options := Some (default ∅ (selected_options s)) |}.

Definition initialised (s : SessionState) : Prop :=
  is_Some (quiz_generated s) /\ is_Some (selected_options s).

(** Inputs of a run started by the generate button while the model cannot
    be reached. *)
Definition offline : Inputs :=
  {| text_content := "other text"; quiz_level := Hard; num_questions := 3;
     clicked := Some Generate; radio_choice := fun _ => None;
     generate_content := fun _ => Raise ExternalError |}.

Section Generation.

Variable format_value : json -> string.
Variable str_upper : string -> string.

(** A run started by the generate button, whatever [fetch_questions] does. *)
Lemma run_generate inp w :
  clicked inp = Some Generate ->
  run format_value str_upper inp w =
    match cache_data_fetch_questions (cache w) (generate_content inp) (text_content inp)
            (level_label (quiz_level inp)) (num_questions inp) with
    | (c, Ok qs) =>
        ({| session := {| questions := Some qs; quiz_generated := Some true;
                          selected_options := Some ∅ |};
            cache := c |},
         [st_button "🚀 Generate Quiz"], Reruns)
    | (c, Raise e) =>
        ({| session := initialise (session w); cache := c |},
         [st_button "🚀 Generate Quiz"], Raises e)
    end.
Proof.
  intros Hclick. destruct w as [[q g sel] ca].
  unfold run, main, mbind, M_bind, call_fetch_questions. simpl.
  destruct g, sel; simpl; rewrite Hclick; simpl;
    by destruct (cache_data_fetch_questions _ _ _ _ _) as [c [qs|e]].
Qed.

(** X3: when the model raises, on a click of the generate button with a
    text, level and count that are not in the cache, the run ends with the
    exception of the model, which [fetch_questions] does not catch; the
    questions, the selections and the cache are as they were, so a quiz
    that was shown is not lost. *)
Theorem failed_generation_keeps_quiz inp w e :
  clicked inp = Some Generate ->
  cache w !! (text_content inp, level_label (quiz_level inp), num_questions inp) = None ->
  generate_content inp
    (PROMPT_TEMPLATE (text_content inp) (level_label (quiz_level inp)) (num_questions inp))
    = Raise e ->
  run format_value str_upper inp w =
    ({| session := initialise (session w); cache := cache w |},
     [st_button "🚀 Generate Quiz"], Raises e).
Proof.
  intros Hclick Hmiss Hgen. rewrite run_generate by done.
  unfold cache_data_fetch_questions, fetch_questions. by rewrite Hmiss, Hgen.
Qed.

(** X4: a click on the generate button with the text, level and count of
    a generation that returned stores the questions of that generation
    again, without asking the model, and leaves the cache as it is. *)
Theorem regeneration_repeats_cached_quiz inp w w1 again w' page :
  clicked inp = Some Generate ->
  run format_value str_upper inp w = (w1, page, Reruns) ->
  clicked again = Some Generate ->
  text_content again = text_content inp ->
  quiz_level again = quiz_level inp ->
  num_questions again = num_questions inp ->
  cache w' = cache w1 ->
  run format_value str_upper again w' =
    ({| session := session w1; cache := cache w1 |}, [st_button "🚀 Generate Quiz"], Reruns).
Proof.
  intros Hclick Hrun Hagain Htext Hlevel Hn Hcache.
  rewrite run_generate in Hrun by done. rewrite run_generate by done.
  rewrite Htext, Hlevel, Hn, Hcache.
  destruct (cache_data_fetch_questions (cache w) _ _ _ _) as [c [qs|e]] eqn:Hfetch; [|done].
  simplify_eq. simpl.
  by rewrite (cache_data_hit _ _ _ _ _ _ _ Hfetch).
Qed.

(** X5: a generation whose response is not JSON shows a quiz with no
    question, and the submission of its form ends in [ZeroDivisionError],
    after the two lines that open the results, with the world unchanged. *)
Theorem undecodable_response_then_submit inp w response submit :
  clicked inp = Some Generate ->
  cache w !! (text_content inp, level_label (quiz_level inp), num_questions inp) = None ->
  generate_content inp
    (PROMPT_TEMPLATE (text_content inp) (level_label (quiz_level inp)) (num_questions inp))
    = Ok response ->
  json_loads response = Raise JSONDecodeError ->
  clicked submit = Some Submit ->
  let w1 := step format_value str_upper inp w in
  questions (session w1) = Some (JArr []) /\
  quiz_generated (session w1) = Some true /\
  run format_value str_upper submit w1 =
    (w1, [st_button "🚀 Generate Quiz"; st_divider; st_write "## 🎯 Your Quiz";
          st_form_submit_button "✅ Submit Answers";
          st_success "✅ Quiz Submitted Successfully!"; st_write "### 📊 Quiz Results"],
     Raises ZeroDivisionError).
Proof.
  intros Hclick Hmiss Hgen Hjson Hsubmit w1.
  assert (w1 = {| session := {| questions := Some (JArr []); quiz_generated := Some true;
                                selected_options := Some ∅ |};
                  cache := <[(text_content inp, level_label (quiz_level inp),
                              num_questions inp) := JArr []]> (cache w) |}) as ->.
  { unfold w1, step. rewrite run_generate by done.
    unfold cache_data_fetch_questions, fetch_questions.
    rewrite Hmiss, Hgen. simpl. by rewrite Hjson. }
  repeat split. unfold run, main. rewrite Hsubmit. reflexivity.
Qed.

End Generation.

Lemma failed_generation_keeps_quiz_witness :
  run_plain offline answered =
    ({| session := initialise (session answered); cache := cache answered |},
     [st_button "🚀 Generate Quiz"], Raises ExternalError) /\
  initialise (session answered) = session answered.
Proof.
  split; [|vm_compute; reflexivity].
  apply (failed_generation_keeps_quiz str_plain upper_ascii offline answered ExternalError).
  - reflexivity.
  - vm_compute; reflexivity.
  - reflexivity.
Defined.

Lemma regeneration_repeats_cached_quiz_witness :
  run_plain (click Generate quiet) answered =
    ({| session := session generated; cache := cache generated |},
     [st_button "🚀 Generate Quiz"], Reruns).
Proof.
  apply (regeneration_repeats_cached_quiz str_plain upper_ascii
           (click Generate (answering two_questions quiet)) new_world generated
           (click Generate quiet) answered [st_button "🚀 Generate Quiz"]).
  - reflexivity.
  - vm_compute; reflexivity.
  - reflexivity.
  - reflexivity.
  - reflexivity.
  - reflexivity.
  - vm_compute; reflexivity.
Defined.

Lemma undecodable_response_then_submit_witness :
  questions (session empty_quiz) = Some (JArr []) /\
  quiz_generated (session empty_quiz) = Some true /\
  run_plain (click Submit quiet) empty_quiz =
    (empty_quiz,
     [st_button "🚀 Generate Quiz"; st_divider; st_write "## 🎯 Your Quiz";
      st_form_submit_button "✅ Submit Answers";
      st_success "✅ Quiz Submitted Successfully!"; st_write "### 📊 Quiz Results"],
     Raises ZeroDivisionError).
Proof.
  apply (undecodable_response_then_submit str_plain upper_ascii
           (click Generate (answering "Sorry, I cannot write a quiz." quiet)) new_world
           "Sorry, I cannot write a quiz." (click Submit quiet)).
  - reflexivity.
  - reflexivity.
  - reflexivity.
  - vm_compute; reflexivity.
  - reflexivity.
Defined.

(** ** What a run does to the world *)

Section Runs.

Variable format_value : json -> string.
Variable str_upper : string -> string.

(** The key that the form stores for question [i] (lines 123 to 135): the
    head of the label chosen in its radio, when one is chosen. *)
Definition selected_key (inp : Inputs) (i : nat) (question : json) : option string :=
  match res_bind (py_getitem question "options") py_items with
  | Ok items =>
      match radio_choice inp i ≫= (fun k => formatted_options format_value items !! k) with
      | Some label => if truthy (Some label) then Some (split_head ":" label) else None
      | None => None
      end
  | Raise _ => None
  end.

Lemma selected_key_chosen inp i question key :
  selected_key inp i question = Some key -> radio_choice inp i <> None.
Proof.
  unfold selected_key. destruct (res_bind _ _); [|done].
  by destruct (radio_choice inp i).
Qed.

(** The body of the loop of the form changes the world only by storing the
    selected key of its question. *)
Lemma form_question_selects inp (i : nat) question (P : World -> Prop) E :
  (forall w d key, P w -> selected_options (session w) = Some d ->
     selected_key inp i question = Some key ->
     P (on_session (with_selected_options (<[i := key]> d)) w)) ->
  (forall e w, P w -> ~ (draws question /\ is_Some (selected_options (session w))) ->
     E (Raised e) w) ->
  hoare P (form_question format_value inp i question) (fun _ => P) E.
Proof.
  intros Hins Hstop. unfold form_question.
  step_lift mcq Hmcq.
  { intros e w Hw Hr. apply Hstop; [done|]. intros [(? & ? & ? & ? & _) _]. congruence. }
  step_emit.
  step_lift options Hoptions.
  { intros e w Hw Hr. apply Hstop; [done|]. intros [(? & ? & ? & _ & ? & _) _]. congruence. }
  step_lift items Hitems.
  { intros e w Hw Hr. apply Hstop; [done|]. intros [(? & ? & ? & _ & ? & ?) _]. congruence. }
  step_emit.
  assert (forall label,
            radio_choice inp i ≫= (fun k => formatted_options format_value items !! k)
              = Some label ->
            truthy (Some label) = true ->
            selected_key inp i question = Some (split_head ":" label)) as Hkey.
  { intros label Hlabel Htruthy. unfold selected_key.
    rewrite Hoptions. cbn [res_bind]. rewrite Hitems, Hlabel. by rewrite Htruthy. }
  destruct (_ ≫= _) as [label|]; [|by apply hoare_ret].
  destruct (truthy _) eqn:Htruthy; [|by apply hoare_ret].
  step_attribute d.
  { intros w Hw Hnone. apply Hstop; [done|]. intros [_ [? ?]]. congruence. }
  apply hoare_modify_session. intros w [Hw Hd]. apply Hins; [done..|]. by apply Hkey.
Qed.

Lemma form_loop_selects inp (P : World -> Prop) E items : forall i : nat,
  (forall w d (j : nat) question key, items !! j = Some question ->
     P w -> selected_options (session w) = Some d ->
     selected_key inp (i + j) question = Some key ->
     P (on_session (with_selected_options (<[(i + j)%nat := key]> d)) w)) ->
  (forall e w, P w -> ~ (Forall draws items /\ is_Some (selected_options (session w))) ->
     E (Raised e) w) ->
  hoare P (form_loop format_value inp i items) (fun _ => P) E.
Proof.
  induction items as [|question rest IH]; intros i Hins Hstop; simpl.
  - by apply hoare_ret.
  - eapply hoare_bind; [|intros ?; cbv beta].
    + apply form_question_selects.
      * intros w d key Hw Hd Hkey. specialize (Hins w d 0%nat question key).
        rewrite Nat.add_0_r in Hins. by apply Hins.
      * intros e w Hw Hnot. apply Hstop; [done|].
        intros [Hall Hsel]. apply Hnot. split; [|done]. by inversion Hall.
    + apply IH.
      * intros w d j question' key Hj Hw Hd Hkey.
        specialize (Hins w d (S j) question' key).
        rewrite Nat.add_succ_r in Hins. by apply Hins.
      * intros e w Hw Hnot. apply Hstop; [done|].
        intros [Hall Hsel]. apply Hnot. split; [|done]. by inversion Hall.
Qed.

(** What holds where a computation stops can be weakened. *)
Lemma hoare_stop {A} (P : World -> Prop) (m : M A) Q (E E' : stop -> World -> Prop) :
  (forall s w, E' s w -> E s w) -> hoare P m Q E' -> hoare P m Q E.
Proof.
  intros HE Hm r Hr. specialize (Hm r Hr).
  destruct (m r) as [r' [a|e|]]; auto.
Qed.

(** What a run can do to the world, in one rule.  A run first sets the two
    attributes that are missing.  Then a click on the generate button ends
    it with the result of [fetch_questions] stored, or with its exception;
    otherwise the form stores the selected keys of questions whose radio has
    a choice, scoring changes nothing, and a click on the reset button ends
    the run with the world reset.  [Q] holds however the run ends when it
    holds in each of these cases. *)
Lemma main_rule inp (P I Q : World -> Prop) :
  (forall w, P w -> I (on_session initialise w)) ->
  (forall w d qs items (j : nat) question key,
     I w -> selected_options (session w) = Some d ->
     questions (session w) = Some qs -> py_iter qs = Ok items ->
     items !! j = Some question -> selected_key inp j question = Some key ->
     I (on_session (with_selected_options (<[j := key]> d)) w)) ->
  (forall w, I w -> Q w) ->
  (clicked inp = Some Generate -> forall w, I w ->
     match cache_data_fetch_questions (cache w) (generate_content inp) (text_content inp)
             (level_label (quiz_level inp)) (num_questions inp) with
     | (c, Ok qs) =>
         Q {| session := {| questions := Some qs; quiz_generated := Some true;
                            selected_options := Some ∅ |};
              cache := c |}
     | (c, Raise e) => Q {| session := session w; cache := c |}
     end) ->
  (clicked inp = Some Reset -> forall w, I w -> Q (reset_world w)) ->
  hoare P (main format_value str_upper inp) (fun _ => Q) (fun _ => Q).
Proof.
  intros Hinit Hins HIQ Hgenerate Hreset. unfold main.
  eapply hoare_bind; [apply hoare_get_session|intros s; cbv beta].
  apply (hoare_bind _ _ _ (fun _ w =>
           exists w0, P w0 /\ w = on_session (with_quiz_generated
                                   (default false (quiz_generated (session w0)))) w0));
    [|intros ?].
  { destruct (quiz_generated s) as [g|] eqn:Hg.
    - apply hoare_ret. intros w [Hw ->]. exists w. split; [done|].
      rewrite Hg. by destruct w as [[q g' sel] ca]; simpl in *; subst.
    - apply hoare_modify_session. intros w [Hw ->]. exists w. by rewrite Hg. }
  eapply hoare_bind; [apply hoare_get_session|intros s'; cbv beta].
  apply (hoare_bind _ _ _ (fun _ => I)); [|intros ?].
  { destruct (selected_options s') as [d|] eqn:Hd.
    - apply hoare_ret. intros w [(w0 & Hw0 & ->) ->].
      specialize (Hinit w0 Hw0). simpl in Hd.
      destruct w0 as [[q g sel] ca]; simpl in *; subst. exact Hinit.
    - apply hoare_modify_session. intros w [(w0 & Hw0 & ->) ->].
      specialize (Hinit w0 Hw0). simpl in Hd.
      destruct w0 as [[q g sel] ca]; simpl in *; subst. exact Hinit. }
  step_emit.
  apply (hoare_bind _ _ _ (fun _ => I)); [|intros ?].
  { destruct (clicked inp) as [[| |]|] eqn:Hclick; try by apply hoare_ret.
    specialize (Hgenerate eq_refl).
    eapply hoare_bind; [|intros qs; cbv beta].
    { apply (hoare_call_fetch_questions _ _ _ _ _
               (fun v w => Q {| session := {| questions := Some v; quiz_generated := Some true;
                                              selected_options := Some ∅ |};
                                cache := cache w |})).
      intros w Hw. specialize (Hgenerate w Hw).
      by destruct (cache_data_fetch_questions _ _ _ _ _) as [c [v|e]]. }
    apply (hoare_bind _ _ _ (fun _ w =>
             questions (session w) = Some qs /\
             Q {| session := {| questions := Some qs; quiz_generated := Some true;
                                selected_options := Some ∅ |};
                  cache := cache w |})); [|intros ?].
    { apply hoare_modify_session. by intros w Hw. }
    apply (hoare_bind _ _ _ (fun _ w =>
             questions (session w) = Some qs /\ quiz_generated (session w) = Some true /\
             Q {| session := {| questions := Some qs; quiz_generated := Some true;
                                selected_options := Some ∅ |};
                  cache := cache w |})); [|intros ?].
    { apply hoare_modify_session. by intros w [Hq Hw]. }
    apply (hoare_bind _ _ _ (fun _ => Q)); [|intros ?; by apply hoare_rerun].
    apply hoare_modify_session. intros w (Hq & Hg & Hw).
    destruct w as [[q g sel] ca]; simpl in *; by subst. }
  step_attribute shown. { intros w Hw _. by apply HIQ. }
  apply (hoare_pre _ I); [by intros w [H _]|].
  destruct shown; [|by apply hoare_ret].
  step_emit. step_emit.
  step_attribute qs. { intros w Hw _. by apply HIQ. }
  eapply hoare_bind; [apply hoare_lift; intros e w [Hw _] _; by apply HIQ|
                      intros items; cbv beta].
  apply hoare_pure; intros Hitems.
  apply (hoare_bind _ _ _ (fun _ => I)); [|intros ?].
  { apply (hoare_post _ _ _ (fun _ w => I w /\ questions (session w) = Some qs));
      [by intros ? w [H _]|].
    apply form_loop_selects.
    - intros w d j question key Hj [Hw Hqs] Hd Hkey. split; [|done].
      by apply (Hins w d qs items j question key).
    - intros e w [Hw _] _. by apply HIQ. }
  step_emit.
  apply (hoare_bind _ _ _ (fun _ => I)); [|intros ?].
  { destruct (clicked inp) as [[| |]|]; try by apply hoare_ret.
    eapply hoare_stop; [|apply show_results_world]. intros ? w. apply HIQ. }
  step_emit.
  destruct (clicked inp) as [[| |]|] eqn:Hclick; try by apply hoare_ret.
  specialize (Hreset eq_refl).
  apply (hoare_bind _ _ _ (fun _ w =>
           exists w0, I w0 /\ w = on_session (with_quiz_generated false) w0));
    [|intros ?].
  { apply hoare_modify_session. intros w Hw. by exists w. }
  apply (hoare_bind _ _ _ (fun _ => Q)); [|intros ?; by apply hoare_rerun].
  apply hoare_modify_session. intros w (w0 & Hw0 & ->). exact (Hreset w0 Hw0).
Qed.

(** X6: after a run, whatever its inputs and however it ended, the
    session state has the attributes [quiz_generated] and
    [selected_options]. *)
Theorem run_initialises_session inp w :
  initialised (session (step format_value str_upper inp w)).
Proof.
  apply (hoare_step format_value str_upper (fun _ => True)
           (fun w => initialised (session w))); [|done].
  apply (main_rule _ (fun _ => True) (fun w => initialised (session w))).
  - intros w0 _. split; by eexists.
  - intros w0 d qs items j question key [Hg _] _ _ _ _ _. split; [done|by eexists].
  - done.
  - intros _ w0 [Hg Hs].
    destruct (cache_data_fetch_questions _ _ _ _ _) as [c [v|e]]; [|done].
    split; by eexists.
  - intros _ w0 _. split; by eexists.
Qed.

(** A quiz that is shown has its questions stored. *)
Definition shown_has_questions (w : World) : Prop :=
  quiz_generated (session w) = Some true -> is_Some (questions (session w)).

(** X7: in every world a session can reach, whatever its inputs, a quiz
    that is shown has its questions stored: the script never sets
    [questions] before a generation, and reads it only when
    [quiz_generated] is true. *)
Theorem shown_quiz_has_questions (allowed : Inputs -> Prop) (w : World) :
  reachable format_value str_upper allowed w ->
  quiz_generated (session w) = Some true ->
  exists qs, questions (session w) = Some qs.
Proof.
  intros Hreach. change (shown_has_questions w).
  induction Hreach as [|inp w _ _ IH]; [done|].
  apply (hoare_step format_value str_upper shown_has_questions shown_has_questions); [|done].
  apply (main_rule _ _ shown_has_questions).
  - intros w0 Hw0 Hg. apply Hw0. simpl in Hg. by destruct (quiz_generated (session w0)) as [[]|].
  - by intros w0 d qs items j question key Hw0 _ _ _ _ _.
  - done.
  - intros _ w0 Hw0.
    destruct (cache_data_fetch_questions _ _ _ _ _) as [c [v|e]]; [|done].
    intros _. by eexists.
  - by intros _ w0 Hw0.
Qed.

(** X8: the cache only grows: a run keeps every result that is stored in
    it, however it ends, and changes the cache only when the generate
    button started it. *)
Theorem runs_keep_the_cache inp w :
  cache w ⊆ cache (step format_value str_upper inp w) /\
  (clicked inp <> Some Generate -> cache (step format_value str_upper inp w) = cache w).
Proof.
  split.
  - apply (hoare_step format_value str_upper (fun w0 => w0 = w) (fun w0 => cache w ⊆ cache w0));
      [|done].
    apply (main_rule _ _ (fun w0 => cache w ⊆ cache w0)).
    + by intros w0 ->.
    + by intros w0 d qs items j question key Hw0 _ _ _ _ _.
    + done.
    + intros _ w0 Hw0. unfold cache_data_fetch_questions.
      destruct (cache w0 !! _) eqn:Hhit; [done|].
      destruct (fetch_questions _ _ _ _); [|done].
      simpl. etrans; [exact Hw0|]. by apply insert_subseteq.
    + by intros _ w0 Hw0.
  - intros Hclick.
    apply (hoare_step format_value str_upper (fun w0 => w0 = w) (fun w0 => cache w0 = cache w));
      [|done].
    apply (main_rule _ _ (fun w0 => cache w0 = cache w)).
    + by intros w0 ->.
    + by intros w0 d qs items j question key Hw0 _ _ _ _ _.
    + done.
    + done.
    + by intros _ w0 Hw0.
Qed.

(** X9: a run that no button started and in which no radio has a choice
    changes nothing, in a session that already has its two attributes. *)
Theorem quiet_run_changes_nothing inp w :
  clicked inp = None ->
  (forall i, radio_choice inp i = None) ->
  initialised (session w) ->
  step format_value str_upper inp w = w.
Proof.
  intros Hclick Hradio [[g Hg] [d Hd]].
  apply (hoare_step format_value str_upper (fun w0 => w0 = w) (fun w0 => w0 = w)); [|done].
  apply (main_rule _ _ (fun w0 => w0 = w)).
  - intros w0 ->. destruct w as [[q g' sel] ca]; simpl in *. by subst.
  - intros w0 d' qs items j question key _ _ _ _ _ Hkey%selected_key_chosen.
    by rewrite Hradio in Hkey.
  - done.
  - by rewrite Hclick.
  - by rewrite Hclick.
Qed.

(** X10: only a generation changes the questions; and a run that neither
    the generate nor the reset button started, a submission among them,
    keeps whether the quiz is shown and keeps the selection of every
    question whose radio has no choice, however it ends. *)
Theorem answers_persist inp w d :
  clicked inp <> Some Generate ->
  selected_options (session w) = Some d ->
  let w' := step format_value str_upper inp w in
  questions (session w') = questions (session w) /\
  (clicked inp <> Some Reset ->
   quiz_generated (session w') = Some (default false (quiz_generated (session w))) /\
   exists d', selected_options (session w') = Some d' /\
     forall i, radio_choice inp i = None -> d' !! i = d !! i).
Proof.
  intros Hgenerate Hd w'.
  set (kept := fun w0 : World =>
         quiz_generated (session w0) = Some (default false (quiz_generated (session w))) /\
         exists d', selected_options (session w0) = Some d' /\
           forall i, radio_choice inp i = None -> d' !! i = d !! i).
  apply (hoare_step format_value str_upper (fun w0 => w0 = w)
           (fun w0 => questions (session w0) = questions (session w) /\
                      (clicked inp <> Some Reset -> kept w0))); [|done].
  apply (main_rule _ _ (fun w0 => questions (session w0) = questions (session w) /\ kept w0)).
  - intros w0 ->. unfold kept. simpl. rewrite Hd. repeat split. by exists d.
  - intros w0 d0 qs items j question key (Hq & Hg & d' & Hd' & Hkeep) Hd0 _ _ _ Hkey.
    repeat split; [done..|]. eexists. split; [done|].
    intros i Hi. assert (d0 = d') as -> by congruence.
    rewrite lookup_insert_ne; [by apply Hkeep|].
    intros ->. by apply selected_key_chosen in Hkey.
  - by intros w0 [Hq Hkept].
  - done.
  - by intros Hclick w0 [Hq _].
Qed.

End Runs.

Lemma shown_quiz_has_questions_witness :
  exists qs, questions (session generated) = Some qs.
Proof.
  apply (shown_quiz_has_questions str_plain upper_ascii (fun _ => True) generated).
  - apply reachable_step; [exact I|apply reachable_new].
  - vm_compute; reflexivity.
Defined.

Lemma quiet_run_changes_nothing_witness : step_plain quiet answered = answered.
Proof.
  apply (quiet_run_changes_nothing str_plain upper_ascii quiet answered).
  - reflexivity.
  - intros i. reflexivity.
  - split; vm_compute; eexists; reflexivity.
Defined.

Lemma answers_persist_witness :
  questions (session (step_plain (click Submit quiet) answered)) =
    questions (session answered) /\
  (clicked (click Submit quiet) <> Some Reset ->
   quiz_generated (session (step_plain (click Submit quiet) answered)) =
     Some (default false (quiz_generated (session answered))) /\
   exists d', selected_options (session (step_plain (click Submit quiet) answered)) = Some d' /\
     forall i, radio_choice (click Submit quiet) i = None ->
       d' !! i = ({[ 0%nat := "b" ]} : gmap nat string) !! i).
Proof.
  apply (answers_persist str_plain upper_ascii (click Submit quiet) answered
           {[ 0%nat := "b" ]}).
  - discriminate.
  - vm_compute; reflexivity.
Defined.

(** ** The key of a label *)

(** The head of a label is the head of its key. *)
Lemma split_head_label (key text : string) :
  split_head ":" (key +:+ ": " +:+ text) = split_head ":" key.
Proof.
  induction key as [|c key IH]; [done|]. simpl.
  destruct (Ascii.eqb c ":"); [done|]. by rewrite IH.
Qed.

(** A key that has no colon is its own head. *)
Lemma split_head_no_colon (key : string) :
  ~ In ":"%char (list_ascii_of_string key) -> split_head ":" key = key.
Proof.
  induction key as [|c key IH]; [done|]. simpl. intros Hnot.
  destruct (Ascii.eqb_spec c ":") as [->|_]; [by destruct Hnot; left|].
  rewrite IH; [done|]. intros Hin. apply Hnot. by right.
Qed.


(** A label is never empty. *)
Lemma label_truthy (key text : string) : truthy (Some (key +:+ ": " +:+ text)) = true.
Proof. by destruct key. Qed.

Section Choice.

Variable format_value : json -> string.

(** X11: the form, for a question it can draw whose radio has a choice:
    it returns, and under the index of the question it has stored the part
    of the key of the chosen option that comes before the first colon, which
    is the key itself when the key has no colon; nothing else of the session
    is changed. *)
Theorem chosen_option_is_stored inp (i n : nat) question mcq entries key value r d :
  py_getitem question "mcq" = Ok mcq ->
  py_getitem question "options" = Ok (JObj entries) ->
  radio_choice inp i = Some n ->
  entries !! n = Some (key, value) ->
  selected_options (session (world r)) = Some d ->
  exists r',
    form_question format_value inp i question r = (r', Returns tt) /\
    selected_options (session (world r')) = Some (<[i := split_head ":" key]> d) /\
    questions (session (world r')) = questions (session (world r)) /\
    quiz_generated (session (world r')) = quiz_generated (session (world r)) /\
    (~ In ":"%char (list_ascii_of_string key) -> split_head ":" key = key).
Proof.
  intros Hmcq Hoptions Hchoice Hentry Hd.
  assert (formatted_options format_value entries !! n
            = Some (key +:+ ": " +:+ format_value value)) as Hlabel.
  { unfold formatted_options. by rewrite list_lookup_fmap, Hentry. }
  unfold form_question, mbind, M_bind. rewrite Hmcq, Hoptions, Hchoice.
  cbn [lift emit py_items option_bind]. rewrite Hlabel, label_truthy.
  unfold attribute. cbn [world session]. rewrite Hd.
  eexists. split; [done|]. simpl. rewrite split_head_label.
  repeat split. apply split_head_no_colon.
Qed.

End Choice.

Lemma chosen_option_is_stored_witness :
  exists r',
    form_question str_plain (choose first_answered quiet) 0 question_one
      {| world := generated; page := [] |} = (r', Returns tt) /\
    selected_options (session (world r')) = Some (<[0%nat := split_head ":" "b"]> ∅) /\
    questions (session (world r')) = questions (session generated) /\
    quiz_generated (session (world r')) = quiz_generated (session generated) /\
    (~ In ":"%char (list_ascii_of_string "b") -> split_head ":" "b" = "b").
Proof.
  apply (chosen_option_is_stored str_plain (choose first_answered quiet) 0 1 question_one
           (JStr "One?") [("a", JStr "x"); ("b", JStr "y")] "b" (JStr "y")
           {| world := generated; page := [] |} ∅).
  - reflexivity.
  - reflexivity.
  - reflexivity.
  - reflexivity.
  - vm_compute; reflexivity.
Defined.

(** ** A model that answers with a quiz *)








Section Safety.

Variable format_value : json -> string.
Variable str_upper : string -> string.









End Safety.





(** ** Questions that cannot be drawn or scored *)

(** A model that answers with [null] for the questions. *)
Definition null_quiz : World :=
  step_plain (click Generate (answering (dq "{'mcqs': null}") quiet)) new_world.

(** A model whose options have keys with a colon, and the session in which
    the first option is chosen. *)
Definition colon_quiz : string :=
  dq "{'mcqs': [{'mcq': 'Q?', 'options': {'1:1': 'x', '2:1': 'y'}, 'correct': '1:1'}]}".

Definition colon_answered : World :=
  step_plain (choose first_option quiet)
    (step_plain (click Generate (answering colon_quiz quiet)) new_world).

Section Blocked.

Variable format_value : json -> string.
Variable str_upper : string -> string.

(** The body of the loop of the form never ends by [st.rerun()], and it
    returns only for a question it can draw. *)
Lemma form_question_stops inp (i : nat) question (P : World -> Prop) :
  (forall w d key, P w -> selected_options (session w) = Some d ->
     P (on_session (with_selected_options (<[i := key]> d)) w)) ->
  hoare P (form_question format_value inp i question)
        (fun _ w => P w /\ draws question)
        (fun s w => P w /\ exists e, s = Raised e).
Proof.
  intros Hins. unfold form_question.
  step_lift mcq Hmcq. { intros e w Hw _. eauto. }
  step_emit.
  step_lift options Hoptions. { intros e w Hw _. eauto. }
  step_lift items Hitems. { intros e w Hw _. eauto. }
  step_emit.
  assert (draws question) as Hdraws by (by exists mcq, options, items).
  destruct (truthy _); [|by apply hoare_ret].
  destruct (_ ≫= _) as [label|]; [|by apply hoare_ret].
  step_attribute d. { intros w Hw _. eauto. }
  apply hoare_modify_session. intros w [Hw Hd]. split; [by apply Hins|done].
Qed.

Lemma form_loop_stops inp (P : World -> Prop) items : forall i : nat,
  (forall w d (j : nat) key, P w -> selected_options (session w) = Some d ->
     P (on_session (with_selected_options (<[j := key]> d)) w)) ->
  hoare P (form_loop format_value inp i items)
        (fun _ w => P w /\ Forall draws items)
        (fun s w => P w /\ exists e, s = Raised e).
Proof.
  induction items as [|question rest IH]; intros i Hins; simpl.
  - by apply hoare_ret.
  - eapply hoare_bind; [apply form_question_stops; intros w d key; apply Hins|
                        intros ?; cbv beta].
    apply hoare_pure. intros Hquestion.
    eapply hoare_post; [|by apply IH]. intros ? w [Hw Hrest]. split; [done|].
    by constructor.
Qed.

(** X13: a quiz that is shown but whose stored questions the form cannot
    draw (a value that cannot be iterated, an item without a prompt or
    without a dictionary of options) blocks the session: every run that the
    generate button did not start raises before the reset button is
    reached, and leaves the quiz shown with the same questions. *)
Theorem undrawable_quiz_blocks_session inp w qs :
  clicked inp <> Some Generate ->
  quiz_generated (session w) = Some true ->
  questions (session w) = Some qs ->
  ~ (exists items, py_iter qs = Ok items /\ Forall draws items) ->
  let w' := step format_value str_upper inp w in
  (exists e, (run format_value str_upper inp w).2 = Raises e) /\
  quiz_generated (session w') = Some true /\
  questions (session w') = Some qs /\
  cache w' = cache w.
Proof.
  intros Hclick Hshown Hqs Hnot w'.
  set (blocked := fun w0 : World =>
         quiz_generated (session w0) = Some true /\ questions (session w0) = Some qs /\
         cache w0 = cache w).
  assert (hoare blocked (main format_value str_upper inp)
            (fun _ _ => False) (fun s w0 => blocked w0 /\ exists e, s = Raised e)) as Hmain.
  { unfold main.
    eapply hoare_bind; [apply hoare_get_session|intros s; cbv beta].
    apply (hoare_bind _ _ _ (fun _ => blocked)); [|intros ?].
    { apply (hoare_assert (quiz_generated s = Some true)).
      { intros w0 [(Hg & _) ->]. done. }
      intros ->. apply hoare_ret. by intros w0 [H _]. }
    eapply hoare_bind; [apply hoare_get_session|intros s'; cbv beta].
    apply (hoare_bind _ _ _ (fun _ => blocked)); [|intros ?].
    { destruct (selected_options s'); [apply hoare_ret; by intros w0 [H _]|].
      apply hoare_modify_session. by intros w0 [H _]. }
    step_emit.
    apply (hoare_bind _ _ _ (fun _ => blocked)); [|intros ?].
    { destruct (clicked inp) as [[| |]|]; try by apply hoare_ret. done. }
    step_attribute shown. { intros w0 Hw0 _. eauto. }
    apply (hoare_assert (shown = true)).
    { intros w0 [(Hg & _) Hg']. congruence. }
    intros ->. apply (hoare_pre _ blocked); [by intros w0 [H _]|].
    step_emit. step_emit.
    step_attribute qs'. { intros w0 Hw0 _. eauto. }
    apply (hoare_assert (qs' = qs)).
    { intros w0 [(_ & Hq & _) Hq']. congruence. }
    intros ->. apply (hoare_pre _ blocked); [by intros w0 [H _]|].
    step_lift items Hitems. { intros e w0 Hw0 _. eauto. }
    eapply hoare_bind; [|intros ?; cbv beta].
    { apply form_loop_stops. by intros w0 d j key (Hg & Hq & Hc) _. }
    apply hoare_pure. intros Hdraws. destruct Hnot. by exists items. }
  specialize (Hmain {| world := w; page := [] |}).
  unfold w', step, run. destruct (main _ _ _ _) as [r' [[]|e|]]; simpl in *.
  - by destruct Hmain.
  - destruct Hmain as [(Hg & Hq & Hc) _]; [done|]. by eauto.
  - destruct Hmain as [_ [e He]]; [done|done].
Qed.

(** X14: scoring a question whose stored selection is not empty and is
    no key of its options raises [KeyError], at the lookup of line 152; the
    world is not changed. *)
Theorem unknown_selection_raises_key_error (i : nat) question marks r d mcq entries correct key :
  py_getitem question "mcq" = Ok mcq ->
  py_getitem question "options" = Ok (JObj entries) ->
  py_getitem question "correct" = Ok correct ->
  selected_options (session (world r)) = Some d ->
  d !! i = Some key -> key <> EmptyString ->
  dict_get entries key = None ->
  exists r',
    score_question format_value str_upper i question marks r = (r', Raises KeyError) /\
    world r' = world r.
Proof.
  intros Hmcq Hoptions Hcorrect Hd Hkey Hnonempty Hmissing.
  unfold score_question, mbind, M_bind. rewrite Hmcq, Hcorrect, Hoptions.
  cbn [lift emit]. unfold attribute. cbn [world session]. rewrite Hd, Hkey.
  destruct key as [|c key]; [done|]. cbn [truthy py_getitem lift]. rewrite Hmissing.
  by eexists.
Qed.

End Blocked.

Lemma undrawable_quiz_blocks_session_witness :
  (exists e, (run_plain (click Reset quiet) null_quiz).2 = Raises e) /\
  quiz_generated (session (step_plain (click Reset quiet) null_quiz)) = Some true /\
  questions (session (step_plain (click Reset quiet) null_quiz)) = Some JNull /\
  cache (step_plain (click Reset quiet) null_quiz) = cache null_quiz.
Proof.
  apply (undrawable_quiz_blocks_session str_plain upper_ascii (click Reset quiet)
           null_quiz JNull).
  - discriminate.
  - vm_compute; reflexivity.
  - vm_compute; reflexivity.
  - intros (items & H & _). discriminate H.
Defined.

Lemma unknown_selection_raises_key_error_witness :
  selected_options (session colon_answered) = Some {[ 0%nat := "1" ]} /\
  exists r',
    score_question str_plain upper_ascii 0
      (JObj [("mcq", JStr "Q?"); ("options", JObj [("1:1", JStr "x"); ("2:1", JStr "y")]);
             ("correct", JStr "1:1")])
      0 {| world := colon_answered; page := [] |} = (r', Raises KeyError) /\
    world r' = colon_answered.
Proof.
  split; [vm_compute; reflexivity|].
  apply (unknown_selection_raises_key_error str_plain upper_ascii 0
           (JObj [("mcq", JStr "Q?"); ("options", JObj [("1:1", JStr "x"); ("2:1", JStr "y")]);
                  ("correct", JStr "1:1")])
           0 {| world := colon_answered; page := [] |} {[ 0%nat := "1" ]}
           (JStr "Q?") [("1:1", JStr "x"); ("2:1", JStr "y")] (JStr "1:1") "1").
  - reflexivity.
  - reflexivity.
  - reflexivity.
  - vm_compute; reflexivity.
  - reflexivity.
  - discriminate.
  - reflexivity.
Defined.

(** ** The results *)

Section Results.

Variable format_value : json -> string.
Variable str_upper : string -> string.

(** The scoring loop, when it completes, has drawn three elements for each
    question. *)
Lemma score_loop_page items : forall (i : nat) marks r r' marks' d,
  selected_options (session (world r)) = Some d ->
  score_loop format_value str_upper i items marks r = (r', Returns marks') ->
  exists lines, page r' = page r ++ lines /\ length lines = (3 * length items)%nat.
Proof.
  induction items as [|question rest IH]; intros i marks r r' marks' d Hd; simpl.
  - intros [-> ->]%mret_returns. exists []. by rewrite app_nil_r.
  - intros (r1 & marks1 & Hq & Hrest)%bind_returns.
    destruct (score_question_returns _ _ _ _ _ _ _ _ _ Hd Hq)
      as (correct & mcq & line & correct_line & _ & _ & Hw & Hpage & _).
    rewrite <- Hw in Hd. destruct (IH _ _ _ _ _ _ Hd Hrest) as (lines & Hlines & Hlen).
    exists ([st_markdown mcq; st_write line; st_write correct_line] ++ lines).
    split; [by rewrite Hlines, Hpage, <- app_assoc|].
    rewrite length_app, Hlen. simpl. lia.
Qed.

Lemma total_marks_bounds d items : forall i : nat,
  0 <= total_marks d i items <= Z.of_nat (length items).
Proof.
  induction items as [|question rest IH]; intros i; simpl; [lia|].
  specialize (IH (S i)). unfold question_marks.
  destruct (py_getitem question "correct") as [[]|]; try lia.
  case_decide; lia.
Qed.

(** X15: the results of a submitted form, when they are all drawn: after
    three lines for each question come the score, the progress bar, the
    heading and the feedback, for marks that count the questions whose
    selection is their correct key, out of the number of questions, which
    is not zero; the marks are between zero and that number, and the world
    is not changed. *)
Theorem results_page r r' qs items d :
  questions (session (world r)) = Some qs ->
  py_iter qs = Ok items ->
  selected_options (session (world r)) = Some d ->
  show_results format_value str_upper r = (r', Returns tt) ->
  let marks := total_marks d 0 items in
  let count := Z.of_nat (length items) in
  let score_percentage := percentage marks count in
  0 <= marks <= count /\ 0 < count /\
  world r' = world r /\
  exists lines,
    length lines = (3 * length items)%nat /\
    page r' =
      page r ++
      [st_success "✅ Quiz Submitted Successfully!"; st_write "### 📊 Quiz Results"] ++
      lines ++
      [st_markdown ("### 🎉 You scored **" +:+ str_int marks +:+ " / " +:+ str_int count
                    +:+ "** (" +:+ format_2f score_percentage +:+ "%)");
       st_progress (PrimFloat.div score_percentage 100);
       st_subheader "📢 Performance Feedback";
       feedback score_percentage].
Proof.
  intros Hqs Hiter Hd H marks count score_percentage. unfold show_results in H.
  apply bind_returns in H as (? & [] & ->%emit_returns & H).
  apply bind_returns in H as (? & [] & ->%emit_returns & H).
  apply bind_returns in H as (? & qs1 & [Hqs1 ->]%attribute_returns & H).
  simpl in Hqs1. assert (qs1 = qs) as -> by congruence.
  apply bind_returns in H as (? & items1 & [Hitems1 ->]%lift_returns & H).
  assert (items1 = items) as -> by congruence.
  apply bind_returns in H as (r1 & marks1 & Hloop & H).
  destruct ((fun H => score_loop_returns _ _ _ _ _ _ _ _ d H Hloop) Hd) as [Hmarks Hworld].
  destruct ((fun H => score_loop_page _ _ _ _ _ _ d H Hloop) Hd) as (lines & Hlines & Hlen).
  simpl in Hmarks, Hworld, Hlines.
  apply bind_returns in H as (? & qs2 & [Hqs2 ->]%attribute_returns & H).
  rewrite Hworld, Hqs in Hqs2. injection Hqs2 as <-.
  rewrite (py_iter_len _ _ Hiter) in H.
  apply bind_returns in H as (? & len & [[= <-] ->]%lift_returns & H).
  apply bind_returns in H as (? & ratio & [Hratio ->]%lift_returns & H).
  unfold true_div in Hratio.
  destruct (Z.eqb_spec (Z.of_nat (length items)) 0) as [|Hcount]; [done|].
  injection Hratio as <-.
  apply bind_returns in H as (? & [] & ->%emit_returns & H).
  apply bind_returns in H as (? & [] & ->%emit_returns & H).
  apply bind_returns in H as (? & [] & ->%emit_returns & H).
  apply emit_returns in H. subst r'. simpl.
  pose proof (total_marks_bounds d items 0) as Hbounds.
  split; [done|]. split; [unfold count; lia|]. split; [done|].
  exists lines. split; [done|].
  rewrite Hlines, Hmarks, Z.add_0_l. simpl. rewrite <- !app_assoc. done.
Qed.

End Results.

Lemma results_page_witness :
  let r := {| world := answered; page := [] |} in
  let r' := (show_results str_plain upper_ascii r).1 in
  let marks := total_marks {[ 0%nat := "b" ]} 0 [question_one; question_two] in
  let count := Z.of_nat (length [question_one; question_two]) in
  let score_percentage := percentage marks count in
  0 <= marks <= count /\ 0 < count /\
  world r' = world r /\
  exists lines,
    length lines = (3 * length [question_one; question_two])%nat /\
    page r' =
      page r ++
      [st_success "✅ Quiz Submitted Successfully!"; st_write "### 📊 Quiz Results"] ++
      lines ++
      [st_markdown ("### 🎉 You scored **" +:+ str_int marks +:+ " / " +:+ str_int count
                    +:+ "** (" +:+ format_2f score_percentage +:+ "%)");
       st_progress (PrimFloat.div score_percentage 100);
       st_subheader "📢 Performance Feedback";
       feedback score_percentage].
Proof.
  apply (results_page str_plain upper_ascii {| world := answered; page := [] |}
           (show_results str_plain upper_ascii {| world := answered; page := [] |}).1
           (JArr [question_one; question_two]) [question_one; question_two]
           {[ 0%nat := "b" ]}).
  - vm_compute; reflexivity.
  - reflexivity.
  - vm_compute; reflexivity.
  - vm_compute; reflexivity.
Defined.

(** ** The tier of a count of marks *)

(** The three comparisons of the feedback agree with the counts. *)
Definition tiers_agree (count marks : nat) : bool :=
  let x := percentage (Z.of_nat marks) (Z.of_nat count) in
  Bool.eqb (PrimFloat.eqb x 100) (marks =? count)%nat &&
  Bool.eqb (PrimFloat.leb 80 x) (4 * count <=? 5 * marks)%nat &&
  Bool.eqb (PrimFloat.leb 50 x) (count <=? 2 * marks)%nat.

Lemma tiers_agree_upto_200 :
  forallb (fun count => forallb (tiers_agree (S count)) (seq 0 (S (S count)))) (seq 0 200) = true.
Proof. vm_compute. reflexivity. Qed.

Lemma tiers_agree_in_range (count marks : nat) :
  (1 <= count <= 200)%nat -> (marks <= count)%nat -> tiers_agree count marks = true.
Proof.
  intros Hcount Hmarks. pose proof tiers_agree_upto_200 as H.
  rewrite forallb_forall in H. specialize (H (count - 1)%nat).
  replace (S (count - 1)) with count in H by lia.
  assert (In (count - 1)%nat (seq 0 200)) as Hin by (apply in_seq; lia).
  apply H in Hin. rewrite forallb_forall in Hin. apply Hin, in_seq. lia.
Qed.

(** X16: for a quiz of up to 200 questions, the rounding of the division
    and the multiplication of line 162 never moves a score across a tier:
    the feedback is the top one exactly when all the marks are there, the
    high one from four fifths of them, the middle one from half of them, the
    low one below. *)
Theorem feedback_of_marks (marks count : Z) (ratio : float) :
  1 <= count <= 200 -> 0 <= marks <= count ->
  true_div marks count = Ok ratio ->
  feedback (PrimFloat.mul ratio 100) =
    if decide (marks = count) then perfect_score
    else if decide (4 * count <= 5 * marks) then great_job
    else if decide (count <= 2 * marks) then good_effort
    else keep_practising.
Proof.
  intros Hcount Hmarks Hdiv. unfold true_div in Hdiv.
  destruct (Z.eqb_spec count 0) as [->|_]; [lia|]. injection Hdiv as <-.
  pose proof (tiers_agree_in_range (Z.to_nat count) (Z.to_nat marks)) as H.
  unfold tiers_agree in H. rewrite !Z2Nat.id in H by lia.
  change (PrimFloat.mul (PrimFloat.div (float_of_int marks) (float_of_int count)) 100)
    with (percentage marks count).
  specialize (H ltac:(lia) ltac:(lia)).
  apply andb_prop in H as [[H100 H80]%andb_prop H50].
  apply Bool.eqb_prop in H100, H80, H50.
  unfold feedback. rewrite H100, H80, H50.
  destruct (Nat.eqb_spec (Z.to_nat marks) (Z.to_nat count)) as [Heq|Hne].
  { rewrite decide_True by lia. done. }
  rewrite decide_False by lia.
  destruct (Nat.leb_spec (4 * Z.to_nat count) (5 * Z.to_nat marks)).
  { rewrite decide_True by lia. done. }
  rewrite decide_False by lia.
  destruct (Nat.leb_spec (Z.to_nat count) (2 * Z.to_nat marks)).
  { rewrite decide_True by lia. done. }
  rewrite decide_False by lia. done.
Qed.

Lemma feedback_of_marks_witness :
  true_div 1 2 = Ok 0.5%float /\
  feedback (PrimFloat.mul 0.5 100) =
    if decide (1 = 2) then perfect_score
    else if decide (4 * 2 <= 5 * 1) then great_job
    else if decide (2 <= 2 * 1) then good_effort
    else keep_practising.
Proof.
  split; [vm_compute; reflexivity|].
  apply (feedback_of_marks 1 2 0.5%float).
  - lia.
  - lia.
  - vm_compute; reflexivity.
Defined.

(** The value given to the progress bar is between 0 and 1. *)
Definition progress_fits (count marks : nat) : bool :=
  let value := PrimFloat.div (percentage (Z.of_nat marks) (Z.of_nat count)) 100 in
  PrimFloat.leb 0 value && PrimFloat.leb value 1.

Lemma progress_fits_upto_200 :
  forallb (fun count => forallb (progress_fits (S count)) (seq 0 (S (S count)))) (seq 0 200) = true.
Proof. vm_compute. reflexivity. Qed.

(** X17: for a quiz of up to 200 questions, the value that line 166 gives
    to the progress bar, the score percentage divided by 100, is between 0
    and 1, the values that a progress bar takes. *)
Theorem progress_value_in_range (marks count : Z) (ratio : float) :
  1 <= count <= 200 -> 0 <= marks <= count ->
  true_div marks count = Ok ratio ->
  PrimFloat.leb 0 (PrimFloat.div (PrimFloat.mul ratio 100) 100) = true /\
  PrimFloat.leb (PrimFloat.div (PrimFloat.mul ratio 100) 100) 1 = true.
Proof.
  intros Hcount Hmarks Hdiv. unfold true_div in Hdiv.
  destruct (Z.eqb_spec count 0) as [->|_]; [lia|]. injection Hdiv as <-.
  pose proof progress_fits_upto_200 as H.
  rewrite forallb_forall in H. specialize (H (Z.to_nat count - 1)%nat).
  replace (S (Z.to_nat count - 1)) with (Z.to_nat count) in H by lia.
  assert (In (Z.to_nat count - 1)%nat (seq 0 200)) as Hin by (apply in_seq; lia).
  apply H in Hin. rewrite forallb_forall in Hin.
  specialize (Hin (Z.to_nat marks)). unfold progress_fits, percentage in Hin.
  rewrite !Z2Nat.id in Hin by lia.
  apply andb_prop, Hin, in_seq. lia.
Qed.

Lemma progress_value_in_range_witness :
  PrimFloat.leb 0 (PrimFloat.div (PrimFloat.mul 0.5 100) 100) = true /\
  PrimFloat.leb (PrimFloat.div (PrimFloat.mul 0.5 100) 100) 1 = true.
Proof.
  apply (progress_value_in_range 1 2 0.5%float).
  - lia.
  - lia.
  - vm_compute; reflexivity.
Defined.

(** ** Responses that do not begin a value *)

(** The characters a JSON value can begin with: the quote of a string, the
    bracket of an object or an array, the first letter of a constant, the
    minus sign and the digits of a number. *)
Definition starts_value (c : ascii) : bool :=
  is_char 34 c || is_char 123 c || is_char 91 c ||
  is_char 110 c || is_char 116 c || is_char 102 c || is_char 78 c || is_char 73 c ||
  is_char 45 c || is_digit c.

Lemma scan_once_start n c rest :
  starts_value c = false -> scan_once (S n) (String c rest) = Invalid.
Proof.
  destruct c as [[] [] [] [] [] [] [] []]; intros H; try discriminate H; reflexivity.
Qed.

(** X18: a response whose first character after white space cannot begin
    a JSON value (the backquote of a Markdown fence around the document, a
    word of prose before it) gives the empty list, whatever follows. *)
Theorem fetch_questions_fenced_response (generate_content : string -> res string)
    (text_content quiz_level : string) (num_questions : Z)
    (response : string) (c : ascii) (rest : string) :
  generate_content (PROMPT_TEMPLATE text_content quiz_level num_questions) = Ok response ->
  skip_whitespace response = String c rest ->
  starts_value c = false ->
  fetch_questions generate_content text_content quiz_level num_questions = Ok (JArr []).
Proof.
  intros Hresponse Hskip Hstart. unfold fetch_questions. rewrite Hresponse. simpl.
  unfold json_loads. by rewrite Hskip, scan_once_start.
Qed.

(** The document of the worked session inside a Markdown fence. *)
Definition fenced : string :=
  "```json" +:+ nl +:+ two_questions +:+ nl +:+ "```".

Lemma fetch_questions_fenced_response_witness :
  fetch_questions (fun _ => Ok fenced) "some text" "Easy" 2 = Ok (JArr []).
Proof.
  apply (fetch_questions_fenced_response _ _ _ _ fenced "`"
           ("``json" +:+ nl +:+ two_questions +:+ nl +:+ "```")); reflexivity.
Defined.

(** ** The keys of the radios *)

Lemma str_int_inj (n m : Z) : str_int n = str_int m -> n = m.
Proof.
  unfold str_int. intros H. apply DecimalZ.to_int_inj.
  assert (forall z, NilZero.int_of_string (NilZero.string_of_int (Z.to_int z))
                    = Some (Z.to_int z)) as Hread.
  { intros z. apply NilZero.isi; destruct z as [|p|p]; simpl; try done;
      intros [= Hp]; by apply DecimalPos.Unsigned.to_uint_nonnil in Hp. }
  apply (f_equal NilZero.int_of_string) in H. rewrite !Hread in H. by injection H.
Qed.

(** The key of the radio of question [i] (line 124). *)
Definition option_key (i : nat) : string := "question_" +:+ str_int (Z.of_nat i).

Lemma option_key_inj : Inj (=) (=) option_key.
Proof.
  intros i j H. unfold option_key in H. simpl in H.
  apply Nat2Z.inj, str_int_inj. by simplify_eq.
Qed.

(** The keys of the radios of a page, in the order they were drawn. *)
Definition radio_keys (page : list element) : list string :=
  omap (fun e => match e with st_radio _ _ key _ => Some key | _ => None end) page.

Lemma radio_keys_app (page page' : list element) :
  radio_keys (page ++ page') = radio_keys page ++ radio_keys page'.
Proof. apply omap_app. Qed.

Definition returns {A} (o : outcome A) : bool :=
  match o with
  | Returns _ => true
  | _ => false
  end.

(** [adds K m]: what [m] adds to the page has radios whose keys are in
    [K true] when it returns and in [K false] when it stops. *)
Definition adds {A} (K : bool -> list string -> Prop) (m : M A) : Prop :=
  forall r, exists added,
    page (m r).1 = page r ++ added /\ K (returns (m r).2) (radio_keys added).

Definition no_radio (b : bool) (keys : list string) : Prop := keys = [].

(** The radios of the questions from [i] on: of [n] of them when the form
    is drawn to its end, of the first ones when it stops before. *)
Definition radios_from (i n : nat) (b : bool) (keys : list string) : Prop :=
  exists k, keys = option_key <$> seq i k /\ (k <= n)%nat /\ (b = true -> k = n).

Lemma adds_nothing {A} (K : bool -> list string -> Prop) (m : M A) :
  (forall b, K b []) -> (forall r, page (m r).1 = page r) -> adds K m.
Proof. intros HK Hm r. exists []. by rewrite Hm, app_nil_r. Qed.

Lemma adds_ret {A} K (a : A) : (forall b, K b []) -> adds K (mret a).
Proof. intros HK. by apply adds_nothing. Qed.

Lemma adds_lift {A} K (v : res A) : (forall b, K b []) -> adds K (lift v).
Proof. intros HK. apply adds_nothing; [done|]. intros r. by destruct v. Qed.

Lemma adds_attribute {A} K (field : SessionState -> option A) :
  (forall b, K b []) -> adds K (attribute field).
Proof.
  intros HK. apply adds_nothing; [done|]. intros r. unfold attribute.
  by destruct (field _).
Qed.

Lemma adds_modify_session K f : (forall b, K b []) -> adds K (modify_session f).
Proof. intros HK. by apply adds_nothing. Qed.

Lemma adds_rerun {A} K : (forall b, K b []) -> adds K (st_rerun : M A).
Proof. intros HK. by apply adds_nothing. Qed.

Lemma adds_get_session K : (forall b, K b []) -> adds K get_session.
Proof. intros HK. by apply adds_nothing. Qed.

Lemma adds_call_fetch_questions K gen text level n :
  (forall b, K b []) -> adds K (call_fetch_questions gen text level n).
Proof.
  intros HK. apply adds_nothing; [done|]. intros r. unfold call_fetch_questions.
  by destruct (cache_data_fetch_questions _ _ _ _ _) as [c [v|e]].
Qed.

Lemma adds_emit K (e : element) : K true (radio_keys [e]) -> adds K (emit e).
Proof. intros HK r. by exists [e]. Qed.

Lemma adds_bind {A B} (K1 K2 K : bool -> list string -> Prop) (m : M A) (k : A -> M B) :
  adds K1 m -> (forall a, adds K2 (k a)) ->
  (forall keys, K1 false keys -> K false keys) ->
  (forall b keys keys', K1 true keys -> K2 b keys' -> K b (keys ++ keys')) ->
  adds K (m ≫= k).
Proof.
  intros Hm Hk Hstop Hboth r. unfold mbind, M_bind.
  destruct (Hm r) as (added & Hpage & Hkeys).
  destruct (m r) as [r1 [a|e|]]; simpl in Hpage, Hkeys; [|exists added; split; auto..].
  destruct (Hk a r1) as (added' & Hpage' & Hkeys').
  exists (added ++ added'). split; [by rewrite Hpage', Hpage, app_assoc|].
  rewrite radio_keys_app. by apply Hboth.
Qed.

(** A computation with no radio before another one. *)
Lemma adds_after {A B} (K : bool -> list string -> Prop) (m : M A) (k : A -> M B) :
  K false [] -> adds no_radio m -> (forall a, adds K (k a)) -> adds K (m ≫= k).
Proof.
  intros HK Hm Hk. apply (adds_bind no_radio K); [done..| |].
  - by intros keys ->.
  - by intros b keys keys' ->.
Qed.

(** The statements of the script that draw no radio. *)
Ltac radio_free :=
  repeat first
    [ apply adds_ret; [reflexivity]
    | apply adds_lift; [reflexivity]
    | apply adds_attribute; [reflexivity]
    | apply adds_modify_session; [reflexivity]
    | apply adds_get_session; [reflexivity]
    | apply adds_rerun; [reflexivity]
    | apply adds_emit; [reflexivity]
    | apply adds_after; [reflexivity| |intros ?] ].

Section Keys.

Variable format_value : json -> string.
Variable str_upper : string -> string.

Lemma score_question_no_radio (i : nat) question marks :
  adds no_radio (score_question format_value str_upper i question marks).
Proof.
  unfold score_question.
  apply adds_after; [done|radio_free|intros mcq].
  apply adds_after; [done|radio_free|intros ?].
  apply adds_after; [done|radio_free|intros d].
  apply adds_after; [done|radio_free|intros correct_letter].
  apply adds_after; [done| |intros ?].
  { destruct (truthy _); [|radio_free]. destruct (d !! i); radio_free. }
  apply adds_after; [done|destruct correct_letter; radio_free|intros ?]. radio_free.
Qed.

Lemma score_loop_no_radio items : forall (i : nat) marks,
  adds no_radio (score_loop format_value str_upper i items marks).
Proof.
  induction items as [|question rest IH]; intros i marks; simpl; [radio_free|].
  apply adds_after; [done|apply score_question_no_radio|intros ?; apply IH].
Qed.

Lemma show_results_no_radio : adds no_radio (show_results format_value str_upper).
Proof.
  unfold show_results. radio_free; [apply score_loop_no_radio|].
  apply adds_emit. unfold feedback. by repeat case_match.
Qed.

Lemma form_question_radio inp (i : nat) question :
  adds (radios_from i 1) (form_question format_value inp i question).
Proof.
  assert (radios_from i 1 false []) as Hnone by (exists 0%nat; repeat split; lia).
  assert (forall b, radios_from i 1 b [option_key i]) as Hone by (by exists 1%nat).
  unfold form_question.
  apply adds_after; [done|radio_free|intros mcq].
  apply adds_after; [done|radio_free|intros ?].
  apply adds_after; [done|radio_free|intros options].
  apply adds_after; [done|radio_free|intros items].
  apply (adds_bind (fun _ keys => keys = [option_key i]) no_radio).
  - by apply adds_emit.
  - intros ?. destruct (truthy _); [|radio_free]. destruct (_ ≫= _); radio_free.
  - by intros keys ->.
  - by intros b keys keys' -> ->.
Qed.

Lemma form_loop_radios inp items : forall i : nat,
  adds (radios_from i (length items)) (form_loop format_value inp i items).
Proof.
  induction items as [|question rest IH]; intros i; simpl.
  - apply adds_ret. intros b. by exists 0%nat.
  - eapply adds_bind; [apply form_question_radio|intros ?; apply IH| |].
    + intros keys (k & -> & Hk & _). exists k. repeat split; [lia|done].
    + intros b keys keys' (k & -> & Hk & ->) (k' & -> & Hk' & Hb); [|done].
      exists (S k'). split; [done|]. split; [lia|]. intros ->. by rewrite Hb.
Qed.

(** The radios of a run are those of the first questions, in order. *)
Lemma main_radios inp :
  adds (fun _ keys => exists n, keys = option_key <$> seq 0 n)
       (main format_value str_upper inp).
Proof.
  set (K := fun (_ : bool) keys => exists n, keys = option_key <$> seq 0 n).
  assert (forall b, K b []) as Hnone by (intros b; by exists 0%nat).
  unfold main.
  apply adds_after; [done|radio_free|intros s].
  apply adds_after; [done|destruct (quiz_generated s); radio_free|intros ?].
  apply adds_after; [done|radio_free|intros s'].
  apply adds_after; [done|destruct (selected_options s'); radio_free|intros ?].
  apply adds_after; [done|radio_free|intros ?].
  apply adds_after; [done| |intros ?].
  { destruct (clicked inp) as [[| |]|]; radio_free. apply adds_call_fetch_questions. done. }
  apply adds_after; [done|radio_free|intros shown].
  destruct shown; [|by apply adds_ret].
  apply adds_after; [done|radio_free|intros ?].
  apply adds_after; [done|radio_free|intros ?].
  apply adds_after; [done|radio_free|intros qs].
  apply adds_after; [done|radio_free|intros items].
  apply (adds_bind (radios_from 0 (length items)) no_radio).
  - apply form_loop_radios.
  - intros ?. radio_free.
    + destruct (clicked inp) as [[| |]|];
        [radio_free|apply show_results_no_radio|radio_free|radio_free].
    + destruct (clicked inp) as [[| |]|]; radio_free.
  - intros keys (k & -> & _). by exists k.
  - intros b keys keys' (k & -> & _) ->. exists k. by rewrite app_nil_r.
Qed.

(** X19: in the page of a run, however it ends, no two radios have the
    same key: the keys are [question_0], [question_1] and so on, those of
    the first questions, in order. *)
Theorem radio_keys_are_distinct inp w :
  NoDup (radio_keys (run format_value str_upper inp w).1.2) /\
  exists n, radio_keys (run format_value str_upper inp w).1.2 = option_key <$> seq 0 n.
Proof.
  destruct (main_radios inp {| world := w; page := [] |}) as (added & Hpage & n & Hkeys).
  assert (radio_keys (run format_value str_upper inp w).1.2 = option_key <$> seq 0 n) as ->.
  { unfold run. destruct (main _ _ _ _) as [r' o]. simpl in *. by rewrite Hpage. }
  split; [|by exists n].
  apply NoDup_fmap_2; [apply option_key_inj|apply NoDup_seq].
Qed.

End Keys.

(** ** A response written from records *)

Lemma fetch_questions_reads_records_witness :
  fetch_questions (fun _ => Ok two_questions) "some text" "Easy" 2 =
    Ok (JArr (question_json <$>
                [mkQuestion "One?" [("a", "x"); ("b", "y")] "b";
                 mkQuestion "Two?" [("a", "u"); ("b", "v")] "a"])) /\
  length (question_json <$>
            [mkQuestion "One?" [("a", "x"); ("b", "y")] "b";
             mkQuestion "Two?" [("a", "u"); ("b", "v")] "a"]) = 2%nat.
Proof.
  apply (fetch_questions_reads_records (fun _ => Ok two_questions) "some text" "Easy" 2
           [mkQuestion "One?" [("a", "x"); ("b", "y")] "b";
            mkQuestion "Two?" [("a", "u"); ("b", "v")] "a"]).
  - vm_compute; reflexivity.
  - repeat constructor; by apply (bool_decide_unpack _).
Defined.
